(** * H-Inception (classifiers/H_Inception.py): architecture construction

    A shallow embedding of the class [HINCEPTION]: the custom filter
    generator inside [hybrid_layer], the Inception and shortcut modules, the
    assembly loop of [build_model] and the label/batch preparation of [fit].

    Conventions.
    - Python integers are [Z]; lengths and positions of arrays are [nat].
      Where numpy makes an array of integer labels, the element type it
      picks and the rounding that goes with it are modelled.
    - Kernel weights are rationals ([Q]).  The source computes them in
      binary64; every kernel length the source generates is a power of two,
      so each weight ([+-1], [+-(j/n)^2], [2 (j/n)^2] with [n] a power of two
      at most 16) is a dyadic rational that binary64 represents exactly, and
      rational arithmetic coincides with the arithmetic of the source there.
    - numpy and Keras failures are the [Raise] branch of [result]. *)

From Stdlib Require Import String.
From Stdlib Require Import List ZArith QArith Lia Bool Arith Sorted.
Import ListNotations.

Set Implicit Arguments.

(** ** Results of fallible calls *)

Inductive error : Type :=
| ValueError : error.

Inductive result (A : Type) : Type :=
| Ok : A -> result A
| Raise : error -> result A.

Arguments Ok {A} _.
Arguments Raise {A} _.

Definition rbind {A B : Type} (r : result A) (k : A -> result B) : result B :=
  match r with
  | Ok a => k a
  | Raise e => Raise e
  end.

Fixpoint rmapM {A B : Type} (f : A -> result B) (l : list A) : result (list B) :=
  match l with
  | [] => Ok []
  | x :: tl =>
      rbind (f x) (fun y => rbind (rmapM f tl) (fun ys => Ok (y :: ys)))
  end.

(** ** The part of numpy the filter generator uses *)

Module Np.

  (** A rank-3 array, axis 0 outermost.  For a kernel: taps, input channels,
      output channels. *)
Definition array3 : Type := list (list (list Q)).

Definition map3 (f : Q -> Q) (a : array3) : array3 := map (map (map f)) a.

  (** [np.ones(shape=(d0,d1,d2))], [np.zeros(shape=(d0,d1,d2))] *)
Definition full (d0 d1 d2 : nat) (v : Q) : array3 :=
    repeat (repeat (repeat v d2) d1) d0.
Definition ones (d0 d1 d2 : nat) : array3 := full d0 d1 d2 1.
Definition zeros (d0 d1 d2 : nat) : array3 := full d0 d1 d2 0.

  (** [np.arange(n)] *)
Definition arange (n : nat) : list nat := seq 0 n.

  (** [a[mask] *= s] with a boolean mask over axis 0 *)
Definition imul_where (mask : list bool) (s : Q) (a : array3) : array3 :=
    map (fun mr : bool * list (list Q) =>
           if fst mr then map (map (fun x => x * s)) (snd mr) else snd mr)
        (combine mask a).

  (** [np.linspace(start, stop, num)] with the default [endpoint=True]:
      [arange(num) * step + start], the last sample overwritten by [stop]. *)
Definition linspace (start stop : Q) (num : nat) : list Q :=
    match num with
    | 0%nat => []
    | 1%nat => [start]
    | S m =>
        let step := (stop - start) / inject_Z (Z.of_nat m) in
        map (fun i => inject_Z (Z.of_nat i) * step + start) (seq 0 m) ++ [stop]
    end.

  (** [v.reshape((-1,1,1))] of a rank-1 array *)
Definition reshape_col (v : list Q) : array3 := map (fun x => [[x]]) v.

  (** [a[::-1]] *)
Definition flip0 (a : array3) : array3 := rev a.

  (** [-a], [c * a], [a ** 2] *)
Definition neg (a : array3) : array3 := map3 Qopp a.
Definition scale (c : Q) (a : array3) : array3 := map3 (Qmult c) a.
Definition square (a : array3) : array3 := map3 (fun x => x ^ 2) a.

  (** Broadcasting along one axis: the sizes agree, or the source has size 1
      and is repeated; anything else is numpy's "could not broadcast". *)
Definition broadcast_axis {A : Type} (n : nat) (l : list A) : result (list A) :=
    if (length l =? n)%nat then Ok l
    else match l with
         | [x] => Ok (repeat x n)
         | _ => Raise ValueError
         end.

Definition broadcast_to (d0 d1 d2 : nat) (v : array3) : result array3 :=
    rbind (broadcast_axis d0 v) (fun rows =>
      rmapM (fun row =>
               rbind (broadcast_axis d1 row) (fun cols =>
                 rmapM (broadcast_axis d2) cols))
            rows).

  (** [a[start:stop] = v] for an array [a] of shape [(len a, d1, d2)]: the
      bounds are clipped to the array, [v] is broadcast to the slice. *)
Definition set_slice (d1 d2 : nat) (start stop : nat) (v a : array3)
    : result array3 :=
    let lo := Nat.min start (length a) in
    let hi := Nat.max lo (Nat.min stop (length a)) in
    rbind (broadcast_to (hi - lo) d1 d2 v) (fun vs =>
      Ok (firstn lo a ++ vs ++ skipn hi a)).

  (** [a[start:stop]] read *)
Definition slice (start stop : nat) (a : array3) : array3 :=
    firstn (stop - start) (skipn start a).

End Np.

(** ** Custom filter generator (the three loops of [hybrid_layer]) *)

(** Lines 76-79: ones, then the even positions multiplied by -1. *)
Definition increasing_filter (kernel_size input_channels : nat) : Np.array3 :=
  let filter_ := Np.ones kernel_size input_channels 1 in
  let indices_ := Np.arange kernel_size in
  Np.imul_where (map (fun i => (i mod 2 =? 0)%nat) indices_) (-1 # 1) filter_.

(** Lines 95-98: ones, then the odd positions multiplied by -1. *)
Definition decreasing_filter (kernel_size input_channels : nat) : Np.array3 :=
  let filter_ := Np.ones kernel_size input_channels 1 in
  let indices_ := Np.arange kernel_size in
  Np.imul_where (map (fun i => (0 <? i mod 2)%nat) indices_) (-1 # 1) filter_.

(** Line 116: [np.linspace(start=0,stop=1,num=kernel_size//4+1)[1:]] *)
Definition xmesh (kernel_size : nat) : list Q :=
  tl (Np.linspace 0 1 (kernel_size / 4 + 1)).

(** Lines 120-121 *)
Definition filter_left (kernel_size : nat) : Np.array3 :=
  Np.square (Np.reshape_col (xmesh kernel_size)).
Definition filter_right (kernel_size : nat) : Np.array3 :=
  Np.flip0 (filter_left kernel_size).

(** Lines 114-128: zeros over [kernel_size + kernel_size // 2] taps, then the
    six slice assignments, in the order of the source. *)
Definition peak_filter (kernel_size input_channels : nat) : result Np.array3 :=
  let K := kernel_size in
  let C := input_channels in
  let filter_ := Np.zeros (K + K / 2) C 1 in
  rbind (Np.set_slice C 1 0 (K / 4) (Np.neg (filter_left K)) filter_) (fun f1 =>
  rbind (Np.set_slice C 1 (K / 4) (K / 2) (Np.neg (filter_right K)) f1) (fun f2 =>
  rbind (Np.set_slice C 1 (K / 2) (3 * K / 4) (Np.scale 2 (filter_left K)) f2) (fun f3 =>
  rbind (Np.set_slice C 1 (3 * K / 4) K (Np.scale 2 (filter_right K)) f3) (fun f4 =>
  rbind (Np.set_slice C 1 K (5 * K / 4) (Np.neg (filter_left K)) f4) (fun f5 =>
  Np.set_slice C 1 (5 * K / 4) (length f5) (Np.neg (filter_right K)) f5))))).

(** The quadratic ramp on the mesh, as a plain list. *)
Definition ramp (kernel_size : nat) : list Q :=
  map (fun x => x ^ 2) (xmesh kernel_size).

(** A column of values written into every input channel. *)
Definition across (C : nat) (xs : list Q) : Np.array3 :=
  map (fun x => repeat [x] C) xs.

(** ** The part of Keras the model builder uses

    Keras is an external library.  Its functional API is modelled as a graph
    under construction: calling a layer on tensors checks the input shapes,
    appends a node and returns a symbolic tensor that knows its shape (the
    source reads [tensor.shape[-1]]).  The shape rules are the documented
    ones for ['same'] padding; the checks are conservative, so a call this
    model accepts is one Keras accepts. *)

Module Keras.

Inductive activation : Type := linear | relu | softmax.

  (** A shape without the batch axis: [[length; channels]] or [[features]]. *)
Definition shape : Type := list Z.

  (** ['hybrid-increasse-' + str(keep_track) + '-' + str(kernel_size)], kept
      as its three components. *)
Record layer_name : Type := {
    prefix : string;
    track : Z;
    size : Z
  }.

Record conv1d : Type := {
    filters : Z;
    kernel_size : Z;
    strides : Z;
    activation_ : activation;
    use_bias : bool;
    trainable : bool;
    kernel_initializer : option Np.array3;
    name : option layer_name
  }.

Inductive layer : Type :=
  | Input (s : shape)
  | Conv1D (c : conv1d)
  | MaxPool1D (pool_size strides_ : Z)
  | Concatenate (axis : Z)
  | BatchNormalization
  | Activation (a : activation)
  | Add
  | GlobalAveragePooling1D
  | Dense (units : Z) (a : activation).

Record tensor : Type := {
    tid : nat;
    tshape : shape
  }.

Record node : Type := {
    op : layer;
    inbound : list nat;
    out : shape
  }.

  (** [int(t.shape[-1])] *)
Definition channels (t : tensor) : Z := last (tshape t) 0%Z.

  (** Output length under ['same'] padding: [ceil(L / stride)]. *)
Definition same_length (L stride : Z) : Z := ((L + stride - 1) / stride)%Z.

Definition has_shape (d0 d1 d2 : nat) (k : Np.array3) : bool :=
    (length k =? d0)%nat &&
    forallb (fun row =>
               (length row =? d1)%nat &&
               forallb (fun c => (length c =? d2)%nat) row) k.

Fixpoint shape_eqb (a b : shape) : bool :=
    match a, b with
    | [], [] => true
    | x :: a', y :: b' => (x =? y)%Z && shape_eqb a' b'
    | _, _ => false
    end.

  (** Sum of the channel counts of inputs that all have length [L]. *)
Fixpoint concat_channels (L : Z) (ins : list shape) : option Z :=
    match ins with
    | [] => Some 0%Z
    | [L'; c] :: rest =>
        if (L' =? L)%Z then
          match concat_channels L rest with
          | Some s => Some (c + s)%Z
          | None => None
          end
        else None
    | _ :: _ => None
    end.

Definition infer (l : layer) (ins : list shape) : option shape :=
    match l, ins with
    | Input s, [] =>
        if forallb (fun d => (0 <? d)%Z) s then Some s else None
    | Conv1D c, [[L; C]] =>
        if (0 <? filters c)%Z && (0 <? kernel_size c)%Z && (0 <? strides c)%Z
           && (0 <? L)%Z && (0 <? C)%Z
           && match kernel_initializer c with
              | None => true
              | Some k => has_shape (Z.to_nat (kernel_size c)) (Z.to_nat C)
                                    (Z.to_nat (filters c)) k
              end
        then Some [same_length L (strides c); filters c]
        else None
    | MaxPool1D p s, [[L; C]] =>
        if (0 <? p)%Z && (0 <? s)%Z && (0 <? L)%Z && (0 <? C)%Z
        then Some [same_length L s; C] else None
    | Concatenate axis, [L; _] :: _ =>
        if (axis =? 2)%Z then
          match concat_channels L ins with
          | Some s => Some [L; s]
          | None => None
          end
        else None
    | BatchNormalization, [s] => Some s
    | Activation _, [s] => Some s
    | Add, [a; b] => if shape_eqb a b then Some a else None
    | GlobalAveragePooling1D, [[L; C]] =>
        if (0 <? L)%Z && (0 <? C)%Z then Some [C] else None
    | Dense u _, [[C]] =>
        if (0 <? u)%Z && (0 <? C)%Z then Some [u] else None
    | _, _ => None
    end.

  (** [tf.keras.models.Model(inputs=..., outputs=...)] *)
Record Model : Type := {
    inputs : tensor;
    outputs : tensor
  }.

End Keras.

Import Keras.

(** ** The object under construction *)

(** Constructor arguments of [HINCEPTION.__init__], read-only afterwards. *)
Record HINCEPTION : Type := {
  output_directory : string;
  length_TS : Z;
  n_classes : Z;
  batch_size : Z;
  max_cf_length : Z;
  n_filters : Z;
  use_residual : bool;
  use_bottleneck : bool;
  depth : Z;
  epochs : Z
}.

(** The defaults of the signature of [__init__]. *)
Definition HINCEPTION_default (output_directory : string) (length_TS n_classes : Z)
  : HINCEPTION :=
  {| output_directory := output_directory;
     length_TS := length_TS;
     n_classes := n_classes;
     batch_size := 64;
     max_cf_length := 6;
     n_filters := 32;
     use_residual := true;
     use_bottleneck := true;
     depth := 6;
     epochs := 1500 |}.

(** [range(start, stop)] *)
Definition py_range (start stop : Z) : list Z :=
  map (fun k => (start + Z.of_nat k)%Z) (seq 0 (Z.to_nat (stop - start))).

(** Line 41 *)
Definition kernel_sizes : list Z := [40; 20; 10]%Z.
(** Line 44 *)
Definition bottleneck_size (self : HINCEPTION) : Z := n_filters self.
(** Lines 52-54 *)
Definition increasing_trend_kernels (self : HINCEPTION) : list Z :=
  map (fun i => (2 ^ i)%Z) (py_range 1 (max_cf_length self + 1)).
Definition decreasing_trend_kernels (self : HINCEPTION) : list Z :=
  map (fun i => (2 ^ i)%Z) (py_range 1 (max_cf_length self + 1)).
Definition peak_kernels (self : HINCEPTION) : list Z :=
  map (fun i => (2 ^ i)%Z) (py_range 2 (max_cf_length self + 1)).

(** The attributes that the build mutates, and the graph Keras accumulates
    (newest node first; a tensor's [tid] is the position of its node counted
    from the oldest). *)
Record builder : Type := {
  graph : list node;
  keep_track : Z;
  hybrid : option tensor
}.

Definition empty_builder : builder :=
  {| graph := []; keep_track := 0; hybrid := None |}.

Definition M (A : Type) : Type := builder -> result (A * builder).

Definition ret {A : Type} (a : A) : M A := fun st => Ok (a, st).

Definition bind {A B : Type} (m : M A) (k : A -> M B) : M B :=
  fun st =>
    match m st with
    | Ok (a, st') => k a st'
    | Raise e => Raise e
    end.

Declare Scope build_scope.
Delimit Scope build_scope with build.
Notation "x <- m ;; k" := (bind m (fun x => k))
  (at level 61, m at next level, right associativity) : build_scope.
Notation "m ;;; k" := (bind m (fun _ => k))
  (at level 61, right associativity) : build_scope.
Local Open Scope build_scope.

Definition lift {A : Type} (r : result A) : M A :=
  fun st => match r with Ok a => Ok (a, st) | Raise e => Raise e end.

(** The state after Keras has added a node, and after an attribute
    assignment. *)
Definition push (l : layer) (ins : list tensor) (s : shape) (st : builder)
  : builder :=
  {| graph := {| op := l; inbound := map tid ins; out := s |} :: graph st;
     keep_track := keep_track st;
     hybrid := hybrid st |}.

Definition with_keep_track (v : Z) (st : builder) : builder :=
  {| graph := graph st; keep_track := v; hybrid := hybrid st |}.

Definition with_hybrid (t : tensor) (st : builder) : builder :=
  {| graph := graph st; keep_track := keep_track st; hybrid := Some t |}.

(** [layer(...)(inputs)] *)
Definition call (l : layer) (ins : list tensor) : M tensor :=
  fun st =>
    match infer l (map tshape ins) with
    | Some s => Ok ({| tid := length (graph st); tshape := s |}, push l ins s st)
    | None => Raise ValueError
    end.

Definition get_keep_track : M Z := fun st => Ok (keep_track st, st).

Definition set_keep_track (v : Z) : M unit :=
  fun st => Ok (tt, with_keep_track v st).

Definition set_hybrid (t : tensor) : M unit :=
  fun st => Ok (tt, with_hybrid t st).

(** [for a in l: acc.append(body(a))] *)
Fixpoint for_append {A B : Type} (l : list A) (body : A -> M B) : M (list B) :=
  match l with
  | [] => ret []
  | a :: rest =>
      b <- body a ;;
      bs <- for_append rest body ;;
      ret (b :: bs)
  end.

(** [for a in l: s = body(s, a)] *)
Fixpoint for_fold {A S : Type} (l : list A) (body : S -> A -> M S) (s : S) : M S :=
  match l with
  | [] => ret s
  | a :: rest => s' <- body s a ;; for_fold rest body s'
  end.

(** A learned convolution: default initializer, trainable, unnamed. *)
Definition learned (filters kernel_size strides : Z) (a : activation) : layer :=
  Conv1D {| filters := filters; kernel_size := kernel_size; strides := strides;
            activation_ := a; use_bias := false; trainable := true;
            kernel_initializer := None; name := None |}.

(** A hybrid convolution: one filter, constant initializer, not trainable. *)
Definition frozen (kernel_size : Z) (filter_ : Np.array3) (nm : layer_name) : layer :=
  Conv1D {| filters := 1; kernel_size := kernel_size; strides := 1;
            activation_ := linear; use_bias := false; trainable := false;
            kernel_initializer := Some filter_; name := Some nm |}.

(** The default of the parameter [kernel_sizes] of [hybrid_layer]. *)
Definition hybrid_kernel_sizes : list Z := [2; 4; 8; 16; 32; 64]%Z.

(** Lines 58-144 *)
Definition hybrid_layer (self : HINCEPTION) (input_tensor : tensor)
    (input_channels : Z) (kernel_sizes : list Z) : M tensor :=
  incs <- for_append kernel_sizes (fun kernel_size =>
    let filter_ := increasing_filter (Z.to_nat kernel_size) (Z.to_nat input_channels) in
    kt <- get_keep_track ;;
    conv <- call (frozen kernel_size filter_
                    {| prefix := "hybrid-increasse-"; track := kt; size := kernel_size |})
                 [input_tensor] ;;
    set_keep_track (kt + 1) ;;;
    ret conv) ;;
  decs <- for_append kernel_sizes (fun kernel_size =>
    let filter_ := decreasing_filter (Z.to_nat kernel_size) (Z.to_nat input_channels) in
    kt <- get_keep_track ;;
    conv <- call (frozen kernel_size filter_
                    {| prefix := "hybrid-decrease-"; track := kt; size := kernel_size |})
                 [input_tensor] ;;
    set_keep_track (kt + 1) ;;;
    ret conv) ;;
  peaks <- for_append (tl kernel_sizes) (fun kernel_size =>
    filter_ <- lift (peak_filter (Z.to_nat kernel_size) (Z.to_nat input_channels)) ;;
    kt <- get_keep_track ;;
    conv <- call (frozen (kernel_size + kernel_size / 2) filter_
                    {| prefix := "hybrid-peeks-"; track := kt; size := kernel_size |})
                 [input_tensor] ;;
    set_keep_track (kt + 1) ;;;
    ret conv) ;;
  let conv_list := incs ++ decs ++ peaks in
  hybrid_layer <- call (Concatenate 2) conv_list ;;
  call (Activation relu) [hybrid_layer].

(** Lines 146-189 *)
Definition _inception_module (self : HINCEPTION) (input_tensor : tensor)
    (stride : Z) (activation : activation) (use_hybrid_layer : bool) : M tensor :=
  input_inception <-
    (if use_bottleneck self && (1 <? channels input_tensor)%Z
     then call (learned (bottleneck_size self) 1 1 activation) [input_tensor]
     else ret input_tensor) ;;
  conv_list <- for_append kernel_sizes (fun kernel_size =>
    call (learned (n_filters self) kernel_size stride activation) [input_inception]) ;;
  max_pool_1 <- call (MaxPool1D 3 stride) [input_tensor] ;;
  conv_6 <- call (learned (n_filters self) 1 1 activation) [max_pool_1] ;;
  let conv_list := conv_list ++ [conv_6] in
  conv_list <-
    (if use_hybrid_layer
     then h <- hybrid_layer self input_tensor (channels input_tensor)
                            hybrid_kernel_sizes ;;
          set_hybrid h ;;;
          ret (conv_list ++ [h])
     else ret conv_list) ;;
  x <- call (Concatenate 2) conv_list ;;
  x <- call BatchNormalization [x] ;;
  call (Activation relu) [x].

(** Lines 191-202 *)
Definition _shortcut_layer (self : HINCEPTION) (input_tensor out_tensor : tensor)
  : M tensor :=
  shortcut_y <- call (learned (channels out_tensor) 1 1 linear) [input_tensor] ;;
  shortcut_y <- call BatchNormalization [shortcut_y] ;;
  x <- call Add [shortcut_y; out_tensor] ;;
  call (Activation relu) [x].

(** Lines 219-230: the body of the loop over [d], on the pair
    [(x, input_res)]. *)
Definition build_step (self : HINCEPTION) (xr : tensor * tensor) (d : Z)
  : M (tensor * tensor) :=
  let x := fst xr in
  let input_res := snd xr in
  x <- (if (d =? 0)%Z
        then _inception_module self x 1 linear true
        else _inception_module self x 1 linear false) ;;
  if use_residual self && (d mod 3 =? 2)%Z
  then x <- _shortcut_layer self input_res x ;;
       ret (x, x)
  else ret (x, input_res).

(** Lines 204-236.  Compiling the model and creating the two callbacks
    (lines 238-249) touch neither the graph nor the configuration and are
    left out. *)
Definition build_model (self : HINCEPTION) : M Model :=
  set_keep_track 0 ;;;
  let input_shape := [length_TS self; 1%Z] in
  input_layer <- call (Input input_shape) [] ;;
  xr <- for_fold (py_range 0 (depth self)) (build_step self)
                 (input_layer, input_layer) ;;
  let x := fst xr in
  gap_layer <- call GlobalAveragePooling1D [x] ;;
  output_layer <- call (Dense (n_classes self) softmax) [gap_layer] ;;
  ret {| inputs := input_layer; outputs := output_layer |}.

(** [HINCEPTION(...)]: the constructor ends by calling [build_model]. *)
Definition construct (self : HINCEPTION) : result (Model * builder) :=
  build_model self empty_builder.

(** ** Label encoding and [fit]

    [sklearn.preprocessing.OneHotEncoder] is an external collaborator.  For
    integer labels its documented behaviour is: [fit] stores, per feature
    column, the sorted distinct values ([categories_]); [transform] writes,
    per row and column, the indicator of the value among those categories. *)

Module OHE.

Record encoder : Type := {
    categories_ : option (list (list Z))
  }.

  (** [OHE(sparse=False)] *)
Definition new : encoder := {| categories_ := None |}.

Fixpoint insert_sorted (v : Z) (l : list Z) : list Z :=
    match l with
    | [] => [v]
    | h :: t =>
        if (v <? h)%Z then v :: l
        else if (v =? h)%Z then l
        else h :: insert_sorted v t
    end.

  (** [np.unique] *)
Definition unique (l : list Z) : list Z := fold_right insert_sorted [] l.

Definition column (j : nat) (X : list (list Z)) : list Z :=
    map (fun row => nth j row 0%Z) X.

Definition indicator (cats : list Z) (v : Z) : list Q :=
    map (fun c => if (c =? v)%Z then 1 else 0) cats.

Fixpoint encode_row (cats : list (list Z)) (row : list Z) : list Q :=
    match cats, row with
    | c :: cats', v :: row' => indicator c v ++ encode_row cats' row'
    | _, _ => []
    end.

  (** [enc.fit_transform(X)]: what the encoder held before is discarded.
      An array without samples is rejected. *)
Definition fit_transform (enc : encoder) (X : list (list Z))
    : result (encoder * list (list Q)) :=
    match X with
    | [] => Raise ValueError
    | row0 :: _ =>
        let cats := map (fun j => unique (column j X)) (seq 0 (length row0)) in
        Ok ({| categories_ := Some cats |}, map (encode_row cats) X)
    end.

End OHE.

(** ** Integer labels as numpy holds them

    [np.expand_dims] first makes an array of its argument.  Labels are
    integers; a label sequence is given by their values.  numpy gives all
    entries of an array one element type, found from the values: signed
    64-bit integers when every value fits, unsigned 64-bit integers when
    every value is in [2^63, 2^64), double precision floats as soon as both
    kinds occur, and Python objects when some value fits neither integer
    type.  Only the floats change a value: it is rounded to 53 significant
    bits, ties to even, so that distinct labels can become equal. *)

Inductive dtype : Type :=
| int64 : dtype
| uint64 : dtype
| float64 : dtype
| object : dtype.

Definition fits_int64 (v : Z) : bool := ((- 2 ^ 63 <=? v) && (v <? 2 ^ 63))%Z.

Definition fits_uint64 (v : Z) : bool := ((0 <=? v) && (v <? 2 ^ 64))%Z.

(** The element type numpy finds for one Python integer. *)
Definition dtype_of_int (v : Z) : dtype :=
  if fits_int64 v then int64
  else if fits_uint64 v then uint64
  else object.

(** [np.promote_types] on these four types. *)
Definition promote_types (a b : dtype) : dtype :=
  match a, b with
  | object, _ | _, object => object
  | float64, _ | _, float64 => float64
  | int64, int64 => int64
  | uint64, uint64 => uint64
  | int64, uint64 | uint64, int64 => float64
  end.

(** The element type of the array made of a sequence of integers (an empty
    sequence gives an array of floats). *)
Definition result_type (y : list Z) : dtype :=
  match y with
  | [] => float64
  | v :: rest =>
      fold_left (fun d w => promote_types d (dtype_of_int w)) rest (dtype_of_int v)
  end.

(** The double nearest to an integer, ties to even.  The integers met here
    are below 2^64 in absolute value, far from the largest double. *)
Definition float64_of_int (v : Z) : Z :=
  let m := Z.abs v in
  if (m <? 2 ^ 53)%Z then v
  else
    let ulp := (2 ^ (Z.log2 m - 52))%Z in
    let q := (m / ulp)%Z in
    let r := (m mod ulp)%Z in
    let q' := if (2 * r <? ulp)%Z then q
              else if (ulp <? 2 * r)%Z then (q + 1)%Z
              else if Z.even q then q else (q + 1)%Z in
    (Z.sgn v * (q' * ulp))%Z.

(** [np.asanyarray(y)] for a sequence of integers: the values the array
    holds. *)
Definition np_asanyarray (y : list Z) : list Z :=
  match result_type y with
  | float64 => map float64_of_int y
  | _ => y
  end.

(** [np.expand_dims(y, axis=1)] *)
Definition expand_dims_1 (y : list Z) : list (list Z) :=
  map (fun v => [v]) (np_asanyarray y).

(** The arguments with which [fit] calls [self.model.fit]. *)
Record fit_call (X : Type) : Type := {
  fit_x : list X;
  fit_y : list (list Q);
  fit_batch_size : Z;
  fit_epochs : Z;
  fit_validation_data : option (option (list X) * list (list Q))
}.

(** Lines 251-277.  [xtrain] is the list of its samples along axis 0;
    [None] for [xval] or [yval] is the default of the signature.  The
    plotting that follows the training call is left out. *)
Definition fit {X : Type} (self : HINCEPTION) (xtrain : list X) (ytrain : list Z)
    (xval : option (list X)) (yval : option (list Z)) (plot_test : bool)
  : result (fit_call X) :=
  let n := Z.of_nat (length xtrain) in
  let mini_batch_size := Z.min (batch_size self) (n / 10) in
  let ohe := OHE.new in
  let ytrain := expand_dims_1 ytrain in
  rbind (OHE.fit_transform ohe ytrain) (fun r =>
    let ytrain := snd r in
    if plot_test then
      let ohe := OHE.new in
      match yval with
      | None => Raise ValueError
      | Some yval =>
          let yval := expand_dims_1 yval in
          rbind (OHE.fit_transform ohe yval) (fun r' =>
            let yval := snd r' in
            Ok {| fit_x := xtrain; fit_y := ytrain;
                  fit_batch_size := mini_batch_size;
                  fit_epochs := epochs self;
                  fit_validation_data := Some (xval, yval) |})
      end
    else
      Ok {| fit_x := xtrain; fit_y := ytrain;
            fit_batch_size := mini_batch_size;
            fit_epochs := epochs self;
            fit_validation_data := None |}).

(** ** Reading a finished graph

    What the statements below observe of a graph (newest node first). *)

(** Shortcut modules are the only source of [Add] nodes. *)
Definition is_add (n : node) : bool :=
  match op n with Add => true | _ => false end.

(** Each Inception module creates exactly one [MaxPool1D] node. *)
Definition is_pool (n : node) : bool :=
  match op n with MaxPool1D _ _ => true | _ => false end.

Definition modules_built (g : list node) : Z :=
  Z.of_nat (length (filter is_pool g)).

(** For every shortcut, in creation order: the index of the Inception
    module after which it was inserted. *)
Fixpoint shortcut_positions (g : list node) : list Z :=
  match g with
  | [] => []
  | n :: g' =>
      shortcut_positions g' ++ (if is_add n then [(modules_built g' - 1)%Z] else [])
  end.

(** The hybrid layer is the only source of non-trainable convolutions.  Of
    each one: its name, the kernel size given to [Conv1D], the tensors it is
    applied to. *)
Definition frozen_info : Type := (layer_name * Z * list nat)%type.

Definition frozen_of (n : node) : list frozen_info :=
  match op n with
  | Conv1D c =>
      if trainable c then []
      else match name c with
           | Some nm => [(nm, kernel_size c, inbound n)]
           | None => []
           end
  | _ => []
  end.

Fixpoint frozen_convs (g : list node) : list frozen_info :=
  match g with
  | [] => []
  | n :: g' => frozen_convs g' ++ frozen_of n
  end.

(** One bank of the hybrid layer applied to tensor [xid] when the counter
    stands at [kt]: six increasing, six decreasing and five peak filters. *)
Definition bank_entries (pre : string) (width : Z -> Z) (kt : Z) (xid : nat)
    (ks : list Z) : list frozen_info :=
  map (fun ik : nat * Z =>
         ({| prefix := pre; track := (kt + Z.of_nat (fst ik))%Z; size := snd ik |},
          width (snd ik), [xid]))
      (combine (seq 0 (length ks)) ks).

Definition hybrid_bank (kt : Z) (xid : nat) : list frozen_info :=
  bank_entries "hybrid-increasse-" (fun K => K) kt xid hybrid_kernel_sizes
  ++ bank_entries "hybrid-decrease-" (fun K => K) (kt + 6) xid hybrid_kernel_sizes
  ++ bank_entries "hybrid-peeks-" (fun K => K + K / 2)%Z (kt + 12) xid
       (tl hybrid_kernel_sizes).

(** ** Reasoning about builds

    [wp m st Q]: run from [st], the computation [m] returns normally, with
    a value and a final state that satisfy [Q]. *)
Definition wp {A : Type} (m : M A) (st : builder) (Q : A -> builder -> Prop)
  : Prop :=
  match m st with
  | Ok (a, st') => Q a st'
  | Raise _ => False
  end.

(** What one call of [_inception_module] on [x] does to the state: [t] is
    the tensor returned, [st] the state before and [st'] the state after. *)
Record inception_effect (self : HINCEPTION) (x : tensor) (L : Z)
    (use_hybrid_layer : bool) (st : builder) (t : tensor) (st' : builder)
  : Prop := {
  ie_shape :
    tshape t = [L; (3 * n_filters self + n_filters self
                    + (if use_hybrid_layer then 17 else 0))%Z];
  ie_tid : length (graph st') = S (tid t);
  ie_grows : (length (graph st) < length (graph st'))%nat;
  ie_keep_track :
    keep_track st' = (keep_track st + (if use_hybrid_layer then 17 else 0))%Z;
  ie_hybrid :
    if use_hybrid_layer
    then exists h cat,
        hybrid st' = Some h /\ tshape h = [L; 17%Z] /\
        nth_error (graph st') 2 = Some cat /\ op cat = Concatenate 2 /\
        length (inbound cat) = 5%nat /\ In (tid h) (inbound cat)
    else hybrid st' = hybrid st;
  ie_frozen :
    frozen_convs (graph st')
    = frozen_convs (graph st)
      ++ (if use_hybrid_layer then hybrid_bank (keep_track st) (tid x) else []);
  ie_shortcuts : shortcut_positions (graph st') = shortcut_positions (graph st);
  ie_modules : modules_built (graph st') = (modules_built (graph st) + 1)%Z
}.

(** What one call of [_shortcut_layer] with anchor [a] and current
    activation [o] does to the state. *)
Record shortcut_effect (self : HINCEPTION) (a o : tensor)
    (st : builder) (t : tensor) (st' : builder) : Prop := {
  se_shape : tshape t = tshape o;
  se_tid : length (graph st') = S (tid t);
  se_grows : (length (graph st) < length (graph st'))%nat;
  se_keep_track : keep_track st' = keep_track st;
  se_hybrid : hybrid st' = hybrid st;
  se_frozen : frozen_convs (graph st') = frozen_convs (graph st);
  se_shortcuts :
    shortcut_positions (graph st')
    = shortcut_positions (graph st) ++ [(modules_built (graph st) - 1)%Z];
  se_modules : modules_built (graph st') = modules_built (graph st);
  se_nodes :
    exists proj add,
      nth_error (graph st') 3 = Some proj /\
      op proj = learned (channels o) 1 1 linear /\
      inbound proj = [tid a] /\
      nth_error (graph st') 1 = Some add /\
      op add = Add /\
      inbound add = [S (length (graph st)); tid o]
}.

(** What the body of the loop of [build_model] does at index [d], started
    with [x] and [input_res]. *)
Record step_effect (self : HINCEPTION) (L : Z) (x input_res : tensor) (d : Z)
    (st : builder) (xr : tensor * tensor) (st' : builder) : Prop := {
  st_route :
    exists y st1,
      _inception_module self x 1 linear (d =? 0)%Z st = Ok (y, st1) /\
      inception_effect self x L (d =? 0)%Z st y st1 /\
      if use_residual self && (d mod 3 =? 2)%Z
      then exists t, _shortcut_layer self input_res y st1 = Ok (t, st') /\
                     shortcut_effect self input_res y st1 t st' /\
                     xr = (t, t)
      else xr = (y, input_res) /\ st' = st1;
  st_shape :
    tshape (fst xr)
    = [L; (3 * n_filters self + n_filters self + (if (d =? 0)%Z then 17 else 0))%Z];
  st_anchor : exists Cr, tshape (snd xr) = [L; Cr] /\ (0 < Cr)%Z;
  st_shortcuts :
    shortcut_positions (graph st')
    = shortcut_positions (graph st)
      ++ (if use_residual self && (d mod 3 =? 2)%Z
          then [modules_built (graph st)] else []);
  st_modules : modules_built (graph st') = (modules_built (graph st) + 1)%Z;
  st_frozen :
    frozen_convs (graph st')
    = frozen_convs (graph st)
      ++ (if (d =? 0)%Z then hybrid_bank (keep_track st) (tid x) else []);
  st_keep_track :
    keep_track st' = (keep_track st + (if (d =? 0)%Z then 17 else 0))%Z;
  st_hybrid :
    if (d =? 0)%Z
    then exists h, hybrid st' = Some h /\ tshape h = [L; 17%Z]
    else hybrid st' = hybrid st
}.

(** What the loop of [build_model] does over the indices
    [first, ..., first + count - 1], started with [x] as the current
    activation. *)
Record loop_effect (self : HINCEPTION) (L : Z) (x : tensor) (first count : nat)
    (st : builder) (xr : tensor * tensor) (st' : builder) : Prop := {
  le_current : exists C, tshape (fst xr) = [L; C] /\ (0 < C)%Z;
  le_anchor : exists Cr, tshape (snd xr) = [L; Cr] /\ (0 < Cr)%Z;
  le_modules : modules_built (graph st') = Z.of_nat (first + count);
  le_shortcuts :
    shortcut_positions (graph st')
    = shortcut_positions (graph st)
      ++ (if use_residual self
          then filter (fun d => (d mod 3 =? 2)%Z)
                      (map (fun k => (0 + Z.of_nat k)%Z) (seq first count))
          else []);
  le_frozen :
    frozen_convs (graph st')
    = frozen_convs (graph st)
      ++ (if (first =? 0)%nat && (0 <? count)%nat
          then hybrid_bank (keep_track st) (tid x) else []);
  le_keep_track :
    keep_track st'
    = (keep_track st + (if (first =? 0)%nat && (0 <? count)%nat then 17 else 0))%Z;
  le_hybrid :
    if (first =? 0)%nat && (0 <? count)%nat
    then exists h, hybrid st' = Some h /\ tshape h = [L; 17%Z]
    else hybrid st' = hybrid st
}.

(** ** Configurations used as examples *)

(** The defaults, on series of length 100 with two classes. *)
Definition example_default : HINCEPTION := HINCEPTION_default "out/" 100 2.

(** The defaults, but without any Inception module. *)
Definition example_depth_0 : HINCEPTION :=
  {| output_directory := "out/"; length_TS := 100; n_classes := 2;
     batch_size := 64; max_cf_length := 6; n_filters := 32;
     use_residual := true; use_bottleneck := true; depth := 0; epochs := 1500 |}.

(** The defaults, but with three custom filter lengths per family. *)
Definition example_cf_3 : HINCEPTION :=
  {| output_directory := "out/"; length_TS := 100; n_classes := 2;
     batch_size := 64; max_cf_length := 3; n_filters := 32;
     use_residual := true; use_bottleneck := true; depth := 6; epochs := 1500 |}.

(** The defaults, but with a negative batch size. *)
Definition example_negative_batch : HINCEPTION :=
  {| output_directory := "out/"; length_TS := 100; n_classes := 2;
     batch_size := -1; max_cf_length := 6; n_filters := 32;
     use_residual := true; use_bottleneck := true; depth := 6; epochs := 1500 |}.

(** ** [predict]

    The checkpoint is read by Keras and the accuracy is computed by
    scikit-learn; both are external.  The stored model takes the test
    series to a matrix of class scores or fails, and is obtained from the
    loader by its path.  The accuracy is kept as the fraction it is before the
    division ([0/0] when there are no samples, where the source yields a
    not-a-number).  Scores are compared as rationals, which agrees with the
    floating-point comparison of scores that are numbers. *)

(** [np.argmax] of one row: the first position of the largest value. *)
Fixpoint argmax_from (best_i : nat) (best : Q) (i : nat) (row : list Q) : nat :=
  match row with
  | [] => best_i
  | v :: rest =>
      if Qle_bool v best
      then argmax_from best_i best (S i) rest
      else argmax_from i v (S i) rest
  end.

Definition np_argmax (row : list Q) : result nat :=
  match row with
  | [] => Raise ValueError
  | v :: rest => Ok (argmax_from 0 v 1 rest)
  end.

Record fraction : Type := {
  hits : nat;
  total : nat
}.

(** [accuracy_score(y_true, y_pred, normalize=True)], for integer labels
    [y_true] within the signed 64-bit range and the class indices [y_pred]
    that [np.argmax] yields. *)
Definition accuracy_score (y_true : list Z) (y_pred : list nat) : result fraction :=
  if (length y_true =? length y_pred)%nat
  then Ok {| hits := length (filter (fun p : Z * nat => (fst p =? Z.of_nat (snd p))%Z)
                                    (combine y_true y_pred));
             total := length y_true |}
  else Raise ValueError.

(** [model.predict(x)] of a loaded model.  [model] is what the stored
    network computes on a batch of series: a matrix of scores, or an error
    (series of a shape the network does not take, for instance).  Keras
    raises when the batch holds no series. *)
Definition model_predict {X : Type} (model : list X -> result (list (list Q)))
    (x : list X) : result (list (list Q)) :=
  match x with
  | [] => Raise ValueError
  | _ :: _ => model x
  end.

(** Lines 299-308 *)
Definition predict {X : Type} (self : HINCEPTION)
    (load_model : string -> result (list X -> result (list (list Q))))
    (xtest : list X) (ytest : list Z)
  : result (list (list Q) * fraction) :=
  rbind (load_model (output_directory self ++ "best_model.hdf5")%string) (fun model =>
    rbind (model_predict model xtest) (fun ypred =>
      rbind (rmapM np_argmax ypred) (fun ypred_argmax =>
        rbind (accuracy_score ytest ypred_argmax) (fun acc =>
          Ok (ypred, acc))))).

(** ** Reading a kernel *)

(** The taps of input channel [c] (output channel 0), first tap first. *)
Definition channel_taps (c : nat) (f : Np.array3) : list Q :=
  map (fun row => nth 0 (nth c row []) 0) f.

Definition Qsum (l : list Q) : Q := fold_right Qplus 0 l.

(** A stored model that scores every series [1/4, 3/4], found at the path
    of [example_default] only. *)
Definition example_loader (path : string)
  : result (list unit -> result (list (list Q))) :=
  if String.eqb path "out/best_model.hdf5"
  then Ok (fun xs => Ok (map (fun _ => [1 # 4; 3 # 4]) xs))
  else Raise ValueError.

(* ===================================================================== *)
(** * Properties *)
(* ===================================================================== *)

(** ** Trend filters *)

Section TrendFilters.

Variable C : nat.

Lemma parity_mod2 (i : nat) : (i mod 2 =? 0)%nat = Nat.even i.
  Proof.
    destruct (Nat.even i) eqn:E.
    - apply Nat.even_spec in E. destruct E as [k ->].
      rewrite Nat.mul_comm, Nat.Div0.mod_mul. reflexivity.
    - assert (O : Nat.odd i = true) by (rewrite <- Nat.negb_even, E; reflexivity).
      apply Nat.odd_spec in O. destruct O as [k ->].
      rewrite Nat.add_comm, Nat.mul_comm, Nat.Div0.mod_add. reflexivity.
  Qed.

Lemma imul_where_rows (f : nat -> bool) (row : list (list Q)) (K s : nat) :
    Np.imul_where (map f (seq s K)) (-1 # 1) (repeat row K)
    = map (fun i => if f i then map (map (fun x => x * (-1 # 1))) row else row)
          (seq s K).
  Proof.
    revert s; induction K as [|K IH]; intro s; [reflexivity|].
    cbn [seq repeat map]. unfold Np.imul_where in *. cbn [combine map fst snd].
    f_equal. apply IH.
  Qed.

Lemma flip_ones_row :
    map (map (fun x => x * (-1 # 1))) (repeat (repeat 1 1) C) = repeat [-1 # 1] C.
  Proof. rewrite map_repeat. reflexivity. Qed.

Lemma increasing_filter_taps (K : nat) :
    increasing_filter K C
    = map (fun i => repeat [if Nat.odd i then 1 else -1 # 1] C) (seq 0 K).
  Proof.
    unfold increasing_filter, Np.ones, Np.full, Np.arange.
    rewrite imul_where_rows. apply map_ext; intro i.
    rewrite parity_mod2, <- Nat.negb_odd, flip_ones_row.
    destruct (Nat.odd i); reflexivity.
  Qed.

Lemma decreasing_filter_taps (K : nat) :
    decreasing_filter K C
    = map (fun i => repeat [if Nat.odd i then -1 # 1 else 1] C) (seq 0 K).
  Proof.
    unfold decreasing_filter, Np.ones, Np.full, Np.arange.
    rewrite imul_where_rows. apply map_ext; intro i.
    assert (Hpar : (0 <? i mod 2)%nat = Nat.odd i).
    { rewrite <- (Bool.negb_involutive (Nat.odd i)), Nat.negb_odd, <- parity_mod2.
      destruct (i mod 2)%nat; reflexivity. }
    rewrite Hpar, flip_ones_row.
    destruct (Nat.odd i); reflexivity.
  Qed.

End TrendFilters.

(** C4. For every kernel length [K] and channel count [C], the increasing
    kernel holds +1 at every odd tap and -1 at every even tap, the same in
    every input channel and with a single output channel; the decreasing
    kernel of the same length is its sign-inverse at every tap. *)
Theorem trend_filters_sign_inverse (K C : nat) :
  increasing_filter K C
  = map (fun i => repeat [if Nat.odd i then 1 else -1 # 1] C) (seq 0 K)
  /\ decreasing_filter K C
     = map (fun i => repeat [if Nat.odd i then -1 # 1 else 1] C) (seq 0 K)
  /\ decreasing_filter K C = Np.neg (increasing_filter K C).
Proof.
  split; [apply increasing_filter_taps|].
  split; [apply decreasing_filter_taps|].
  rewrite increasing_filter_taps, decreasing_filter_taps.
  unfold Np.neg, Np.map3. rewrite map_map. apply map_ext; intro i.
  rewrite map_repeat. destruct (Nat.odd i); reflexivity.
Qed.

(** ** Peak filter *)

Section PeakFilter.

Variable C : nat.

Lemma rmapM_fix {A : Type} (f : A -> result A) (l : list A) :
    (forall x, In x l -> f x = Ok x) -> rmapM f l = Ok l.
  Proof.
    induction l as [|a l IH]; intro H; [reflexivity|].
    cbn [rmapM]. rewrite (H a (or_introl eq_refl)). cbn [rbind].
    rewrite IH; [reflexivity|]. intros x Hx. apply H. right. exact Hx.
  Qed.

Lemma rmapM_pointwise {A B : Type} (f : A -> result B) (g : A -> B) (l : list A) :
    (forall x, In x l -> f x = Ok (g x)) -> rmapM f l = Ok (map g l).
  Proof.
    induction l as [|a l IH]; intro H; [reflexivity|].
    cbn [rmapM map]. rewrite (H a (or_introl eq_refl)). cbn [rbind].
    rewrite IH; [reflexivity|]. intros x Hx. apply H. right. exact Hx.
  Qed.

Lemma broadcast_cell (x : Q) :
    rbind (Np.broadcast_axis C [[x]]) (fun cols => rmapM (Np.broadcast_axis 1) cols)
    = Ok (repeat [x] C).
  Proof.
    assert (Hrow : Np.broadcast_axis C [[x]] = Ok (repeat [x] C)).
    { unfold Np.broadcast_axis. cbn [length].
      destruct (1 =? C)%nat eqn:E; [|reflexivity].
      apply Nat.eqb_eq in E. subst C. reflexivity. }
    rewrite Hrow. cbn [rbind]. apply rmapM_fix.
    intros c Hc. apply repeat_spec in Hc. subst c. reflexivity.
  Qed.

Lemma broadcast_column (xs : list Q) :
    Np.broadcast_to (length xs) C 1 (Np.reshape_col xs) = Ok (across C xs).
  Proof.
    unfold Np.broadcast_to.
    assert (H0 : Np.broadcast_axis (length xs) (Np.reshape_col xs)
                 = Ok (Np.reshape_col xs)).
    { unfold Np.broadcast_axis, Np.reshape_col.
      rewrite length_map, Nat.eqb_refl. reflexivity. }
    rewrite H0. cbn [rbind]. clear H0.
    induction xs as [|x xs IH]; [reflexivity|].
    cbn [map rmapM Np.reshape_col across]. rewrite broadcast_cell. cbn [rbind].
    unfold Np.reshape_col in IH. rewrite IH. reflexivity.
  Qed.

  (** Writing a column of the right length over the middle block. *)
Lemma set_slice_block (pre mid post : Np.array3) (xs : list Q) (start stop : nat) :
    start = length pre -> stop = (start + length xs)%nat -> length mid = length xs ->
    Np.set_slice C 1 start stop (Np.reshape_col xs) (pre ++ mid ++ post)
    = Ok (pre ++ across C xs ++ post).
  Proof.
    intros Hs He Hm. unfold Np.set_slice.
    rewrite !length_app, Hm, <- Hs.
    replace (Nat.min start (start + (length xs + length post))) with start by lia.
    replace (Nat.max start (Nat.min stop (start + (length xs + length post))))
      with stop by lia.
    replace (stop - start)%nat with (length xs) by lia.
    rewrite broadcast_column. cbn [rbind]. f_equal.
    rewrite Hs, firstn_app, Nat.sub_diag, firstn_all. cbn [firstn].
    rewrite app_nil_r. f_equal. f_equal.
    rewrite He, Hs, app_assoc, skipn_app, length_app, Hm, Nat.sub_diag.
    rewrite skipn_all2 by (rewrite length_app; lia). reflexivity.
  Qed.

Lemma slice_block (pre mid post : Np.array3) (start stop : nat) :
    start = length pre -> stop = (start + length mid)%nat ->
    Np.slice start stop (pre ++ mid ++ post) = mid.
  Proof.
    intros Hs He. unfold Np.slice.
    rewrite Hs, skipn_app, Nat.sub_diag, skipn_all. cbn [skipn app].
    replace (stop - length pre)%nat with (length mid) by lia.
    rewrite firstn_app, Nat.sub_diag, firstn_all. cbn [firstn].
    apply app_nil_r.
  Qed.

Lemma neg_column (xs : list Q) :
    Np.neg (Np.reshape_col xs) = Np.reshape_col (map Qopp xs).
  Proof. unfold Np.neg, Np.map3, Np.reshape_col. rewrite !map_map. reflexivity. Qed.

Lemma scale_column (c : Q) (xs : list Q) :
    Np.scale c (Np.reshape_col xs) = Np.reshape_col (map (Qmult c) xs).
  Proof. unfold Np.scale, Np.map3, Np.reshape_col. rewrite !map_map. reflexivity. Qed.

Lemma filter_left_column (K : nat) : filter_left K = Np.reshape_col (ramp K).
  Proof.
    unfold filter_left, ramp, Np.square, Np.map3, Np.reshape_col.
    rewrite !map_map. reflexivity.
  Qed.

Lemma filter_right_column (K : nat) : filter_right K = Np.reshape_col (rev (ramp K)).
  Proof.
    unfold filter_right, Np.flip0. rewrite filter_left_column.
    unfold Np.reshape_col. symmetry. apply map_rev.
  Qed.

Lemma xmesh_unfold (n : nat) :
    xmesh (4 * S n)
    = map (fun i => inject_Z (Z.of_nat i) * ((1 - 0) / inject_Z (Z.of_nat (S n))) + 0)
          (seq 1 n) ++ [1].
  Proof.
    unfold xmesh. rewrite Nat.mul_comm, Nat.div_mul by discriminate.
    rewrite Nat.add_1_r. reflexivity.
  Qed.

Lemma xmesh_length (n : nat) : length (xmesh (4 * n)) = n.
  Proof.
    destruct n as [|n]; [reflexivity|].
    rewrite xmesh_unfold, length_app, length_map, length_seq. cbn [length]. lia.
  Qed.

Lemma ramp_length (n : nat) : length (ramp (4 * n)) = n.
  Proof. unfold ramp. rewrite length_map. apply xmesh_length. Qed.

Lemma across_length (xs : list Q) : length (across C xs) = length xs.
  Proof. unfold across. apply length_map. Qed.

Lemma zeros_blocks (n : nat) :
    let z := repeat (repeat (repeat 0 1) C) n in
    Np.zeros (4 * n + 4 * n / 2) C 1 = z ++ z ++ z ++ z ++ z ++ z.
  Proof.
    intro z. subst z. unfold Np.zeros, Np.full. rewrite <- !repeat_app. f_equal.
    replace (4 * n)%nat with (2 * n * 2)%nat at 2 by lia.
    rewrite Nat.div_mul by discriminate. lia.
  Qed.

  (** The kernel for a length that is a multiple of four: the six blocks
      written by the six slice assignments, one after the other. *)
Lemma peak_filter_blocks (n : nat) :
    let r := ramp (4 * n) in
    peak_filter (4 * n) C
    = Ok (across C (map Qopp r) ++ across C (map Qopp (rev r))
          ++ across C (map (Qmult 2) r) ++ across C (map (Qmult 2) (rev r))
          ++ across C (map Qopp r) ++ across C (map Qopp (rev r))).
  Proof.
    intro r.
    assert (Hr : length r = n) by apply ramp_length.
    assert (E4 : (4 * n / 4 = n)%nat)
      by (rewrite Nat.mul_comm; apply Nat.div_mul; discriminate).
    assert (E2 : (4 * n / 2 = 2 * n)%nat)
      by (replace (4 * n)%nat with (2 * n * 2)%nat by lia;
          apply Nat.div_mul; discriminate).
    assert (E3 : (3 * (4 * n) / 4 = 3 * n)%nat)
      by (replace (3 * (4 * n))%nat with (3 * n * 4)%nat by lia;
          apply Nat.div_mul; discriminate).
    assert (E5 : (5 * (4 * n) / 4 = 5 * n)%nat)
      by (replace (5 * (4 * n))%nat with (5 * n * 4)%nat by lia;
          apply Nat.div_mul; discriminate).
    unfold peak_filter. rewrite zeros_blocks. rewrite E4, E2, E3, E5.
    rewrite filter_right_column, filter_left_column, !neg_column, !scale_column.
    fold r.
    set (z := repeat (repeat (repeat 0 1) C) n).
    assert (Hz : length z = n) by apply repeat_length.
    set (a1 := map Qopp r). set (a2 := map Qopp (rev r)).
    set (a3 := map (Qmult 2) r). set (a4 := map (Qmult 2) (rev r)).
    assert (L1 : length a1 = n) by (subst a1; rewrite length_map; exact Hr).
    assert (L2 : length a2 = n)
      by (subst a2; rewrite length_map, length_rev; exact Hr).
    assert (L3 : length a3 = n) by (subst a3; rewrite length_map; exact Hr).
    assert (L4 : length a4 = n)
      by (subst a4; rewrite length_map, length_rev; exact Hr).
    rewrite (set_slice_block [] z (z ++ z ++ z ++ z ++ z) a1) by (cbn; lia).
    cbn [rbind app].
    rewrite (set_slice_block (across C a1) z (z ++ z ++ z ++ z) a2)
      by (rewrite ?across_length; lia).
    cbn [rbind].
    rewrite (app_assoc (across C a1)).
    rewrite (set_slice_block (across C a1 ++ across C a2) z (z ++ z ++ z) a3)
      by (rewrite ?length_app, ?across_length; lia).
    cbn [rbind].
    rewrite (app_assoc (across C a1 ++ across C a2)).
    rewrite (set_slice_block ((across C a1 ++ across C a2) ++ across C a3)
               z (z ++ z) a4)
      by (rewrite ?length_app, ?across_length; lia).
    cbn [rbind].
    rewrite (app_assoc ((across C a1 ++ across C a2) ++ across C a3)).
    rewrite (set_slice_block
               (((across C a1 ++ across C a2) ++ across C a3) ++ across C a4)
               z z a1)
      by (rewrite ?length_app, ?across_length; lia).
    cbn [rbind].
    rewrite (app_assoc (((across C a1 ++ across C a2) ++ across C a3) ++ across C a4)).
    set (pre := (((across C a1 ++ across C a2) ++ across C a3) ++ across C a4)
                ++ across C a1).
    assert (Lp : length pre = (5 * n)%nat)
      by (subst pre; rewrite !length_app, !across_length; lia).
    rewrite length_app, Lp, Hz.
    rewrite <- (app_nil_r z).
    rewrite (set_slice_block pre z [] a2) by lia.
    subst pre. rewrite app_nil_r, <- !app_assoc. reflexivity.
  Qed.

End PeakFilter.

Section PeakSegments.

Variable C : nat.

Lemma Forall2_Qeq_map {A : Type} (f g : A -> Q) (l : list A) :
    (forall x, In x l -> f x == g x) -> Forall2 Qeq (map f l) (map g l).
  Proof.
    induction l as [|a l IH]; intro H; cbn [map]; constructor.
    - apply H. left. reflexivity.
    - apply IH. intros x Hx. apply H. right. exact Hx.
  Qed.

  (** The mesh: [n] equally spaced points [1/n, 2/n, ..., n/n]. *)
Lemma xmesh_points (n : nat) :
    Forall2 Qeq (xmesh (4 * n))
      (map (fun j => inject_Z (Z.of_nat j) / inject_Z (Z.of_nat n)) (seq 1 n)).
  Proof.
    destruct n as [|m]; [constructor|].
    assert (Hne : ~ inject_Z (Z.of_nat (S m)) == 0).
    { unfold Qeq, inject_Z. cbn [Qnum Qden]. lia. }
    rewrite xmesh_unfold, seq_S, map_app. apply Forall2_app.
    - apply Forall2_Qeq_map. intros j _. field. exact Hne.
    - constructor; [|constructor]. cbn [Nat.add map]. field. exact Hne.
  Qed.

  (** All the facts about the kernel of length [4 n], in one place. *)
Lemma peak_filter_layout (n : nat) :
    let K := (4 * n)%nat in
    exists f,
      peak_filter K C = Ok f /\
      length f = (K + K / 2)%nat /\
      Np.slice 0 (K / 4) f = across C (map Qopp (ramp K)) /\
      Np.slice (K / 4) (K / 2) f = across C (map Qopp (rev (ramp K))) /\
      Np.slice (K / 2) (3 * K / 4) f = across C (map (Qmult 2) (ramp K)) /\
      Np.slice (3 * K / 4) K f = across C (map (Qmult 2) (rev (ramp K))) /\
      Np.slice K (5 * K / 4) f = across C (map Qopp (ramp K)) /\
      Np.slice (5 * K / 4) (length f) f = across C (map Qopp (rev (ramp K))).
  Proof.
    intro K. subst K.
    assert (Hr : length (ramp (4 * n)) = n) by apply ramp_length.
    assert (E4 : (4 * n / 4 = n)%nat)
      by (rewrite Nat.mul_comm; apply Nat.div_mul; discriminate).
    assert (E2 : (4 * n / 2 = 2 * n)%nat)
      by (replace (4 * n)%nat with (2 * n * 2)%nat by lia;
          apply Nat.div_mul; discriminate).
    assert (E3 : (3 * (4 * n) / 4 = 3 * n)%nat)
      by (replace (3 * (4 * n))%nat with (3 * n * 4)%nat by lia;
          apply Nat.div_mul; discriminate).
    assert (E5 : (5 * (4 * n) / 4 = 5 * n)%nat)
      by (replace (5 * (4 * n))%nat with (5 * n * 4)%nat by lia;
          apply Nat.div_mul; discriminate).
    eexists. split; [apply peak_filter_blocks|].
    rewrite E4, E2, E3, E5.
    set (r := ramp (4 * n)) in *.
    set (b1 := across C (map Qopp r)). set (b2 := across C (map Qopp (rev r))).
    set (b3 := across C (map (Qmult 2) r)).
    set (b4 := across C (map (Qmult 2) (rev r))).
    assert (L1 : length b1 = n)
      by (subst b1; rewrite across_length, length_map; exact Hr).
    assert (L2 : length b2 = n)
      by (subst b2; rewrite across_length, length_map, length_rev; exact Hr).
    assert (L3 : length b3 = n)
      by (subst b3; rewrite across_length, length_map; exact Hr).
    assert (L4 : length b4 = n)
      by (subst b4; rewrite across_length, length_map, length_rev; exact Hr).
    assert (Len : length (b1 ++ b2 ++ b3 ++ b4 ++ b1 ++ b2) = (6 * n)%nat)
      by (rewrite !length_app; lia).
    split; [rewrite Len; lia|].
    split; [apply (slice_block [] b1); cbn [length]; lia|].
    split; [apply (slice_block b1 b2); lia|].
    split.
    { rewrite (app_assoc b1). apply (slice_block (b1 ++ b2) b3);
        rewrite ?length_app; lia. }
    split.
    { rewrite (app_assoc b1), (app_assoc (b1 ++ b2)).
      apply (slice_block ((b1 ++ b2) ++ b3) b4); rewrite ?length_app; lia. }
    split.
    { rewrite (app_assoc b1), (app_assoc (b1 ++ b2)), (app_assoc ((b1 ++ b2) ++ b3)).
      apply (slice_block (((b1 ++ b2) ++ b3) ++ b4) b1); rewrite ?length_app; lia. }
    rewrite Len.
    rewrite (app_assoc b1), (app_assoc (b1 ++ b2)), (app_assoc ((b1 ++ b2) ++ b3)),
      (app_assoc (((b1 ++ b2) ++ b3) ++ b4)).
    rewrite <- (app_nil_r b2) at 2.
    apply (slice_block ((((b1 ++ b2) ++ b3) ++ b4) ++ b1) b2 []);
      rewrite ?length_app; lia.
  Qed.

Lemma multiple_of_four (K : nat) :
    (K mod 4 = 0)%nat -> K = (4 * (K / 4))%nat.
  Proof. intro H. apply Nat.Div0.div_exact. exact H. Qed.

End PeakSegments.

(** The peak lengths of the program are multiples of four, at least four:
    those of the hybrid layer's default, and those the constructor derives
    from [max_cf_length]. *)
Lemma hybrid_peak_lengths (K : Z) :
  In K (tl hybrid_kernel_sizes) -> (4 <= K /\ K mod 4 = 0)%Z.
Proof.
  cbn [hybrid_kernel_sizes tl In].
  intros [<-|[<-|[<-|[<-|[<-|[]]]]]]; split; (lia || reflexivity).
Qed.

Lemma configured_peak_lengths (self : HINCEPTION) (K : Z) :
  In K (peak_kernels self) -> (4 <= K /\ K mod 4 = 0)%Z.
Proof.
  unfold peak_kernels, py_range. rewrite map_map. intro H.
  apply in_map_iff in H. destruct H as [k [<- _]].
  replace (2 + Z.of_nat k)%Z with (Z.of_nat k + 2)%Z by lia.
  rewrite Z.pow_add_r by lia. change (2 ^ 2)%Z with 4%Z.
  assert (0 < 2 ^ Z.of_nat k)%Z by (apply Z.pow_pos_nonneg; lia).
  split; [lia|]. apply Z.mod_mul. discriminate.
Qed.

(** C5. For every peak length [K >= 4] (a multiple of four, as all peak
    lengths are), the kernel has [K + K/2] taps and is built from the ramp
    of the squares of the [K/4] mesh points [j/(K/4)], [j = 1..K/4], laid out
    in six contiguous segments whose bounds are integer quotients of [K]:
    -ramp, -reversed ramp, +2 ramp, +2 reversed ramp, -ramp, -reversed ramp,
    each value repeated in every input channel. *)
Theorem peak_filter_six_segments (K C : nat) :
  (4 <= K)%nat -> (K mod 4 = 0)%nat ->
  length (xmesh K) = (K / 4)%nat /\
  Forall2 Qeq (xmesh K)
    (map (fun j => inject_Z (Z.of_nat j) / inject_Z (Z.of_nat (K / 4)))
         (seq 1 (K / 4))) /\
  exists f,
    peak_filter K C = Ok f /\
    length f = (K + K / 2)%nat /\
    Np.slice 0 (K / 4) f = across C (map Qopp (ramp K)) /\
    Np.slice (K / 4) (K / 2) f = across C (map Qopp (rev (ramp K))) /\
    Np.slice (K / 2) (3 * K / 4) f = across C (map (Qmult 2) (ramp K)) /\
    Np.slice (3 * K / 4) K f = across C (map (Qmult 2) (rev (ramp K))) /\
    Np.slice K (5 * K / 4) f = across C (map Qopp (ramp K)) /\
    Np.slice (5 * K / 4) (length f) f = across C (map Qopp (rev (ramp K))).
Proof.
  intros _ Hmod. pose proof (multiple_of_four K Hmod) as HK.
  set (n := (K / 4)%nat) in *.
  split; [rewrite HK; apply xmesh_length|].
  split; [rewrite HK at 1; apply xmesh_points|].
  pose proof (peak_filter_layout C n) as H. cbv zeta in H.
  rewrite <- HK in H. exact H.
Qed.

Lemma peak_filter_six_segments_witness :
  exists f, peak_filter 8 1 = Ok f /\ length f = 12%nat
            /\ Np.slice 4 6 f = across 1 (map (Qmult 2) (ramp 8)).
Proof.
  destruct (@peak_filter_six_segments 8 1) as (_ & _ & f & Hf & Hlen & _ & _ & H3 & _).
  - lia.
  - reflexivity.
  - exists f. split; [exact Hf|]. split; [exact Hlen|]. exact H3.
Defined.

(** C2 (as amended). For every peak length [K >= 4] (a multiple of four) the
    kernel has exactly [K + K/2] taps, and segment 1 (positions [0, K/4))
    holds the same values as segment 5 (positions [K, 5K/4)): both are the
    negated ramp. *)
Theorem peak_filter_segment1_is_segment5 (K C : nat) :
  (4 <= K)%nat -> (K mod 4 = 0)%nat ->
  exists f,
    peak_filter K C = Ok f /\
    length f = (K + K / 2)%nat /\
    Np.slice 0 (K / 4) f = Np.slice K (5 * K / 4) f /\
    Np.slice 0 (K / 4) f = across C (map Qopp (ramp K)).
Proof.
  intros _ Hmod. pose proof (multiple_of_four K Hmod) as HK.
  destruct (peak_filter_layout C (K / 4)) as (f & Hf & Hlen & H1 & _ & _ & _ & H5 & _).
  rewrite <- HK in *.
  exists f. split; [exact Hf|]. split; [exact Hlen|].
  split; [rewrite H1, H5; reflexivity | exact H1].
Qed.

Lemma peak_filter_segment1_is_segment5_witness :
  exists f, peak_filter 4 1 = Ok f /\ length f = 6%nat
            /\ Np.slice 0 1 f = Np.slice 4 5 f.
Proof.
  destruct (@peak_filter_segment1_is_segment5 4 1) as (f & Hf & Hlen & H15 & _).
  - lia.
  - reflexivity.
  - exists f. split; [exact Hf|]. split; [exact Hlen|]. exact H15.
Defined.

(** C2 as stated fails at [K = 4]: segment 1 is [-1] and so is segment 5, so
    segment 1 is not the negation of segment 5. *)
Lemma peak_filter_segment1_not_negated_segment5 :
  ~ (exists f,
       peak_filter 4 1 = Ok f /\
       length f = (4 + 4 / 2)%nat /\
       Forall2 (Forall2 (Forall2 Qeq))
               (Np.slice 0 (4 / 4) f) (Np.neg (Np.slice 4 (5 * 4 / 4) f))).
Proof.
  intros (f & Hf & _ & H).
  vm_compute in Hf. injection Hf as <-.
  vm_compute in H.
  inversion H as [|? ? ? ? H1 _]; subst.
  inversion H1 as [|? ? ? ? H2 _]; subst.
  inversion H2 as [|? ? ? ? H3 _]; subst.
  discriminate H3.
Qed.

(** ** Rules for [wp] *)

Section WpRules.

Context {A B : Type}.

Lemma wp_ret (a : A) (st : builder) (Q : A -> builder -> Prop) :
    Q a st -> wp (ret a) st Q.
  Proof. intro H. exact H. Qed.

Lemma wp_bind (m : M A) (k : A -> M B) (st : builder)
        (Q : B -> builder -> Prop) :
    wp m st (fun a st' => wp (k a) st' Q) -> wp (bind m k) st Q.
  Proof.
    unfold wp, bind. destruct (m st) as [[a st']|e]; intro H; exact H.
  Qed.

Lemma wp_mono (m : M A) (st : builder) (Q Q' : A -> builder -> Prop) :
    wp m st Q -> (forall a st', Q a st' -> Q' a st') -> wp m st Q'.
  Proof.
    unfold wp. destruct (m st) as [[a st']|e]; intros H HQ; [apply HQ|]; exact H.
  Qed.

Lemma wp_run (m : M A) (st : builder) (Q : A -> builder -> Prop) :
    wp m st Q -> exists a st', m st = Ok (a, st') /\ Q a st'.
  Proof.
    unfold wp. destruct (m st) as [[a st']|e]; intro H; [|contradiction].
    exists a, st'. split; [reflexivity | exact H].
  Qed.

Lemma wp_lift (r : result A) (a : A) (st : builder) (Q : A -> builder -> Prop) :
    r = Ok a -> Q a st -> wp (lift r) st Q.
  Proof. intros -> H. exact H. Qed.

End WpRules.

Lemma wp_call (l : layer) (ins : list tensor) (s : shape) (st : builder)
      (Q : tensor -> builder -> Prop) :
  infer l (map tshape ins) = Some s ->
  Q {| tid := length (graph st); tshape := s |} (push l ins s st) ->
  wp (call l ins) st Q.
Proof. unfold wp, call. intros -> H. exact H. Qed.

Lemma wp_get_keep_track (st : builder) (Q : Z -> builder -> Prop) :
  Q (keep_track st) st -> wp get_keep_track st Q.
Proof. intro H. exact H. Qed.

Lemma wp_set_keep_track (v : Z) (st : builder) (Q : unit -> builder -> Prop) :
  Q tt (with_keep_track v st) -> wp (set_keep_track v) st Q.
Proof. intro H. exact H. Qed.

Lemma wp_set_hybrid (t : tensor) (st : builder) (Q : unit -> builder -> Prop) :
  Q tt (with_hybrid t st) -> wp (set_hybrid t) st Q.
Proof. intro H. exact H. Qed.

(** ** Shapes accepted by the layer calls of the source *)

Lemma same_length_1 (L : Z) : same_length L 1 = L.
Proof. unfold same_length. rewrite Z.div_1_r. lia. Qed.

Lemma has_shape_across (C : nat) (xs : list Q) :
  has_shape (length xs) C 1 (across C xs) = true.
Proof.
  unfold has_shape. rewrite across_length, Nat.eqb_refl. cbn [andb].
  apply forallb_forall. intros row Hrow. unfold across in Hrow.
  apply in_map_iff in Hrow. destruct Hrow as [x [<- _]].
  rewrite repeat_length, Nat.eqb_refl. cbn [andb].
  apply forallb_forall. intros c Hc. apply repeat_spec in Hc. subst c. reflexivity.
Qed.

Lemma has_shape_column (n C : nat) (xs : list Q) :
  length xs = n -> has_shape n C 1 (across C xs) = true.
Proof. intros <-. apply has_shape_across. Qed.

Lemma has_shape_increasing (K C : nat) :
  has_shape K C 1 (increasing_filter K C) = true.
Proof.
  rewrite increasing_filter_taps.
  rewrite <- (map_map (fun i => if Nat.odd i then 1 else -1 # 1)
                      (fun x => repeat [x] C)).
  apply has_shape_column. rewrite length_map. apply length_seq.
Qed.

Lemma has_shape_decreasing (K C : nat) :
  has_shape K C 1 (decreasing_filter K C) = true.
Proof.
  rewrite decreasing_filter_taps.
  rewrite <- (map_map (fun i => if Nat.odd i then -1 # 1 else 1)
                      (fun x => repeat [x] C)).
  apply has_shape_column. rewrite length_map. apply length_seq.
Qed.

Lemma has_shape_peak (n C : nat) :
  exists f, peak_filter (4 * n) C = Ok f /\ has_shape (6 * n) C 1 f = true.
Proof.
  eexists. split; [apply peak_filter_blocks|].
  unfold across. rewrite <- !map_app.
  apply has_shape_column.
  repeat rewrite ?length_app, ?length_map, ?length_rev, ?ramp_length. lia.
Qed.

Section LayerCalls.

Variables (x : tensor) (L C : Z).
Hypothesis Hx : tshape x = [L; C].
Hypothesis HL : (0 < L)%Z.
Hypothesis HC : (0 < C)%Z.

Lemma infer_frozen (K : Z) (filt : Np.array3) (nm : layer_name) :
    (0 < K)%Z ->
    has_shape (Z.to_nat K) (Z.to_nat C) 1 filt = true ->
    infer (frozen K filt nm) (map tshape [x]) = Some [L; 1%Z].
  Proof.
    intros HK Hs. cbn [map]. rewrite Hx. unfold frozen, infer.
    cbn [filters kernel_size strides kernel_initializer].
    change (Z.to_nat 1) with 1%nat. rewrite Hs, same_length_1.
    destruct (Z.ltb_spec 0 K); [|lia].
    destruct (Z.ltb_spec 0 L); [|lia].
    destruct (Z.ltb_spec 0 C); [|lia].
    reflexivity.
  Qed.

Lemma infer_learned (f K : Z) (a : activation) :
    (0 < f)%Z -> (0 < K)%Z ->
    infer (learned f K 1 a) (map tshape [x]) = Some [L; f].
  Proof.
    intros Hf HK. cbn [map]. rewrite Hx. unfold learned, infer.
    cbn [filters kernel_size strides kernel_initializer].
    rewrite same_length_1.
    destruct (Z.ltb_spec 0 f); [|lia].
    destruct (Z.ltb_spec 0 K); [|lia].
    destruct (Z.ltb_spec 0 L); [|lia].
    destruct (Z.ltb_spec 0 C); [|lia].
    reflexivity.
  Qed.

Lemma infer_pool :
    infer (MaxPool1D 3 1) (map tshape [x]) = Some [L; C].
  Proof.
    cbn [map]. rewrite Hx. unfold infer. rewrite same_length_1.
    destruct (Z.ltb_spec 0 L); [|lia].
    destruct (Z.ltb_spec 0 C); [|lia].
    reflexivity.
  Qed.

Lemma infer_same (l : layer) :
    l = BatchNormalization \/ l = Activation relu ->
    infer l (map tshape [x]) = Some [L; C].
  Proof. cbn [map]. rewrite Hx. intros [-> | ->]; reflexivity. Qed.

Lemma infer_gap :
    infer GlobalAveragePooling1D (map tshape [x]) = Some [C].
  Proof.
    cbn [map]. rewrite Hx. unfold infer.
    destruct (Z.ltb_spec 0 L); [|lia].
    destruct (Z.ltb_spec 0 C); [|lia].
    reflexivity.
  Qed.

End LayerCalls.

(** ** The hybrid layer *)

Ltac wp_next :=
  lazymatch goal with
  | |- wp (bind _ _) _ _ => apply wp_bind
  | |- wp (ret _) _ _ => apply wp_ret
  | |- wp get_keep_track _ _ => apply wp_get_keep_track
  | |- wp (set_keep_track _) _ _ => apply wp_set_keep_track
  | |- wp (set_hybrid _) _ _ => apply wp_set_hybrid
  end;
  cbn [keep_track graph hybrid with_keep_track with_hybrid push length map tid].

Section HybridLayer.

Variables (self : HINCEPTION) (x : tensor) (L C : Z).
Hypothesis Hx : tshape x = [L; C].
Hypothesis HL : (0 < L)%Z.
Hypothesis HC : (0 < C)%Z.

Ltac hybrid_next :=
    lazymatch goal with
    | |- wp (call (frozen _ _ _) _) _ _ =>
        eapply wp_call;
        [ apply (@infer_frozen x L C Hx HL HC);
          [ reflexivity
          | lazymatch goal with
            | |- has_shape _ _ _ (increasing_filter _ _) = true =>
                apply has_shape_increasing
            | |- has_shape _ _ _ (decreasing_filter _ _) = true =>
                apply has_shape_decreasing
            | |- has_shape _ _ _ ?f = true =>
                match goal with H : has_shape _ _ _ f = true |- _ => exact H end
            end ]
        | cbn [keep_track graph hybrid with_keep_track with_hybrid push length
                 map tid] ]
    | |- wp (lift (Ok _)) _ _ => eapply wp_lift; [reflexivity|]
    | |- _ => wp_next
    end.

Lemma hybrid_layer_run (st : builder) :
    wp (hybrid_layer self x C hybrid_kernel_sizes) st (fun h st' =>
      tshape h = [L; 17%Z] /\
      tid h = (length (graph st) + 18)%nat /\
      length (graph st') = (length (graph st) + 19)%nat /\
      keep_track st' = (keep_track st + 17)%Z /\
      hybrid st' = hybrid st /\
      frozen_convs (graph st')
      = frozen_convs (graph st) ++ hybrid_bank (keep_track st) (tid x) /\
      shortcut_positions (graph st') = shortcut_positions (graph st) /\
      modules_built (graph st') = modules_built (graph st)).
  Proof.
    destruct (has_shape_peak 1 (Z.to_nat C)) as (f4 & Hf4 & Hs4).
    destruct (has_shape_peak 2 (Z.to_nat C)) as (f8 & Hf8 & Hs8).
    destruct (has_shape_peak 4 (Z.to_nat C)) as (f16 & Hf16 & Hs16).
    destruct (has_shape_peak 8 (Z.to_nat C)) as (f32 & Hf32 & Hs32).
    destruct (has_shape_peak 16 (Z.to_nat C)) as (f64 & Hf64 & Hs64).
    change (4 * 1)%nat with (Z.to_nat 4) in Hf4.
    change (4 * 2)%nat with (Z.to_nat 8) in Hf8.
    change (4 * 4)%nat with (Z.to_nat 16) in Hf16.
    change (4 * 8)%nat with (Z.to_nat 32) in Hf32.
    change (4 * 16)%nat with (Z.to_nat 64) in Hf64.
    unfold hybrid_layer, hybrid_kernel_sizes. cbn [for_append tl].
    rewrite Hf4, Hf8, Hf16, Hf32, Hf64.
    repeat hybrid_next.
    apply wp_call with (s := [L; 17%Z]).
    { cbn [app map tshape]. unfold infer. cbn [concat_channels].
      rewrite !Z.eqb_refl. reflexivity. }
    cbn [keep_track graph hybrid with_keep_track with_hybrid push length map tid].
    apply wp_call with (s := [L; 17%Z]); [reflexivity|].
    cbn [keep_track graph hybrid with_keep_track with_hybrid push length map tid
         tshape app].
    split; [reflexivity|]. split; [lia|]. split; [lia|]. split; [lia|].
    split; [reflexivity|].
    split.
    { cbn [frozen_convs frozen_of op frozen trainable name kernel_size inbound].
      unfold hybrid_bank, bank_entries, hybrid_kernel_sizes.
      cbn [tl length seq combine map fst snd Z.of_nat Pos.of_succ_nat Pos.succ].
      repeat rewrite <- app_assoc. cbn [app].
      do 2 f_equal; repeat (f_equal; try lia). }
    split.
    { cbn [shortcut_positions is_add op frozen]. rewrite ?app_nil_r. reflexivity. }
    unfold modules_built. cbn [filter is_pool op frozen]. reflexivity.
  Qed.

End HybridLayer.

(** ** The Inception module *)

Ltac wp_norm :=
  cbn [keep_track graph hybrid with_keep_track with_hybrid push length map tid
       tshape app].

Ltac same_channels :=
  match goal with
  | |- Some [?L; ?a] = Some [?L; ?b] => replace a with b by lia; reflexivity
  end.

Section InceptionModule.

Variables (self : HINCEPTION) (x : tensor) (L C : Z).
Hypothesis Hx : tshape x = [L; C].
Hypothesis HL : (0 < L)%Z.
Hypothesis HC : (0 < C)%Z.
Hypothesis Hnf : (0 < n_filters self)%Z.

Ltac learned_call :=
    eapply wp_call;
    [ eapply infer_learned; first [exact Hx | reflexivity | lia]
    | wp_norm ].

Ltac inception_next :=
    lazymatch goal with
    | |- wp (call (learned _ _ _ _) _) _ _ => learned_call
    | |- wp (call (MaxPool1D _ _) _) _ _ =>
        eapply wp_call; [apply (@infer_pool x L C Hx HL HC) | wp_norm]
    | |- _ => wp_next
    end.

Lemma channels_x : channels x = C.
  Proof. unfold channels. rewrite Hx. reflexivity. Qed.

Ltac tail_calls extra :=
    apply wp_call with
      (s := [L; (3 * n_filters self + n_filters self + extra)%Z]);
    [ cbn [map tshape]; unfold infer; cbn [concat_channels];
      rewrite !Z.eqb_refl; same_channels
    | wp_norm;
      apply wp_bind; eapply wp_call; [reflexivity|]; wp_norm;
      eapply wp_call; [reflexivity|]; wp_norm ].

Ltac measures :=
    unfold modules_built;
    cbn [keep_track graph hybrid with_keep_track with_hybrid push length
         frozen_convs frozen_of op learned trainable app shortcut_positions
         is_add filter is_pool tid tshape inbound map nth_error];
    rewrite ?app_nil_r.

Lemma with_hybrid_run (st : builder) :
    wp (hybrid_layer self x C hybrid_kernel_sizes) st (fun h st1 =>
      forall (c1 c2 c3 c6 : tensor),
        tshape c1 = [L; n_filters self] -> tshape c2 = [L; n_filters self] ->
        tshape c3 = [L; n_filters self] -> tshape c6 = [L; n_filters self] ->
        wp (set_hybrid h ;;; ret [c1; c2; c3; c6; h]) st1 (fun conv_list st2 =>
          wp (x0 <- call (Concatenate 2) conv_list ;;
              x1 <- call BatchNormalization [x0] ;;
              call (Activation relu) [x1]) st2 (fun t st' =>
            tshape t = [L; (3 * n_filters self + n_filters self + 17)%Z] /\
            length (graph st') = S (tid t) /\
            length (graph st') = (length (graph st) + 22)%nat /\
            keep_track st' = (keep_track st + 17)%Z /\
            (exists cat,
                hybrid st' = Some h /\ tshape h = [L; 17%Z] /\
                nth_error (graph st') 2 = Some cat /\ op cat = Concatenate 2 /\
                length (inbound cat) = 5%nat /\ In (tid h) (inbound cat)) /\
            frozen_convs (graph st')
            = frozen_convs (graph st) ++ hybrid_bank (keep_track st) (tid x) /\
            shortcut_positions (graph st') = shortcut_positions (graph st) /\
            modules_built (graph st') = modules_built (graph st)))).
  Proof.
    eapply wp_mono; [apply (@hybrid_layer_run self x L C Hx HL HC)|].
    intros h st1 (Hh & Hhid & Hlen & Hkt & Hhy & Hfz & Hsp & Hmb).
    intros c1 c2 c3 c6 H1 H2 H3 H6.
    do 3 wp_next.
    apply wp_bind.
    apply wp_call with
      (s := [L; (3 * n_filters self + n_filters self + 17)%Z]).
    { cbn [map]. rewrite H1, H2, H3, H6, Hh. unfold infer. cbn [concat_channels].
      rewrite !Z.eqb_refl. same_channels. }
    wp_norm.
    apply wp_bind. eapply wp_call; [reflexivity|]. wp_norm.
    eapply wp_call; [reflexivity|]. wp_norm.
    unfold modules_built in *. measures.
    split; [reflexivity|]. split; [reflexivity|]. split; [lia|].
    split; [exact Hkt|].
    split.
    { eexists. split; [reflexivity|]. split; [exact Hh|].
      split; [reflexivity|]. cbn [op inbound length]. split; [reflexivity|].
      split; [reflexivity|]. cbn [In]. tauto. }
    split; [exact Hfz|]. split; [exact Hsp | exact Hmb].
  Qed.

Lemma inception_run (use_hybrid_layer : bool) (st : builder) :
    wp (_inception_module self x 1 linear use_hybrid_layer) st
       (inception_effect self x L use_hybrid_layer st).
  Proof.
    unfold _inception_module, bottleneck_size, kernel_sizes.
    rewrite channels_x. cbn [for_append].
    destruct (use_bottleneck self && (1 <? C)%Z); destruct use_hybrid_layer.
    - repeat inception_next.
      eapply wp_mono; [apply with_hybrid_run|].
      intros h st1 H. cbv beta in H.
      eapply wp_mono; [apply H; reflexivity|]. cbv beta.
      intros conv_list st2 H2.
      eapply wp_mono; [exact H2|]. cbv beta.
      intros t st' (Hs & Ht & Hlen & Hkt & Hhy & Hfz & Hsp & Hmb).
      revert Hlen Hkt Hfz Hsp Hmb. measures. intros Hlen Hkt Hfz Hsp Hmb.
      constructor; try assumption; try (unfold modules_built; lia).
      destruct Hhy as [cat Hcat]. exists h, cat. exact Hcat.
    - repeat inception_next. tail_calls 0%Z.
      constructor; measures; try reflexivity; lia.
    - repeat inception_next.
      eapply wp_mono; [apply with_hybrid_run|].
      intros h st1 H. cbv beta in H.
      eapply wp_mono; [apply H; first [exact Hx | reflexivity]|]. cbv beta.
      intros conv_list st2 H2.
      eapply wp_mono; [exact H2|]. cbv beta.
      intros t st' (Hs & Ht & Hlen & Hkt & Hhy & Hfz & Hsp & Hmb).
      revert Hlen Hkt Hfz Hsp Hmb. measures. intros Hlen Hkt Hfz Hsp Hmb.
      constructor; try assumption; try (unfold modules_built; lia).
      destruct Hhy as [cat Hcat]. exists h, cat. exact Hcat.
    - repeat inception_next. tail_calls 0%Z.
      constructor; measures; try reflexivity; lia.
  Qed.

End InceptionModule.

(** ** The shortcut module and one step of the assembly loop *)

Section ShortcutAndStep.

Variables (self : HINCEPTION) (L : Z).
Hypothesis HL : (0 < L)%Z.
Hypothesis Hnf : (0 < n_filters self)%Z.

Lemma shortcut_run (a o : tensor) (Ca Co : Z) (st : builder) :
    tshape a = [L; Ca] -> tshape o = [L; Co] -> (0 < Ca)%Z -> (0 < Co)%Z ->
    wp (_shortcut_layer self a o) st (shortcut_effect self a o st).
  Proof.
    intros Ha Ho HCa HCo. unfold _shortcut_layer.
    assert (Hch : channels o = Co) by (unfold channels; rewrite Ho; reflexivity).
    apply wp_bind. eapply wp_call.
    { rewrite Hch. eapply infer_learned; first [exact Ha | lia]. }
    wp_norm.
    apply wp_bind. eapply wp_call; [reflexivity|]. wp_norm.
    apply wp_bind. apply wp_call with (s := [L; Co]).
    { cbn [map tshape]. rewrite Ho. unfold infer. cbn [shape_eqb].
      rewrite !Z.eqb_refl. reflexivity. }
    wp_norm.
    eapply wp_call; [reflexivity|]. wp_norm.
    constructor;
      cbn [keep_track graph hybrid push length frozen_convs frozen_of op learned
           trainable app shortcut_positions is_add tid tshape];
      unfold modules_built; cbn [filter is_pool op learned length];
      repeat rewrite app_nil_r; try reflexivity; try lia.
    - symmetry. exact Ho.
    - eexists. eexists. cbn [nth_error op inbound map tid].
      repeat split; reflexivity.
  Qed.

Lemma step_run (x input_res : tensor) (C Cr d : Z) (st : builder) :
    tshape x = [L; C] -> (0 < C)%Z ->
    tshape input_res = [L; Cr] -> (0 < Cr)%Z ->
    wp (build_step self (x, input_res) d) st
       (step_effect self L x input_res d st).
  Proof.
    intros Hx HC Hr HCr. unfold build_step. cbn [fst snd].
    assert (Hinc : wp (_inception_module self x 1 linear (d =? 0)%Z) st
                      (inception_effect self x L (d =? 0)%Z st))
      by (apply (@inception_run self x L C Hx HL HC Hnf)).
    assert (Hsame :
      (if (d =? 0)%Z
       then _inception_module self x 1 linear true
       else _inception_module self x 1 linear false)
      = _inception_module self x 1 linear (d =? 0)%Z)
      by (destruct (d =? 0)%Z; reflexivity).
    rewrite Hsame. clear Hsame.
    apply wp_bind.
    apply wp_run in Hinc. destruct Hinc as (y & st1 & Hrun & Hy).
    unfold wp at 1. rewrite Hrun.
    assert (HCy : (0 < 3 * n_filters self + n_filters self
                       + (if (d =? 0)%Z then 17 else 0))%Z)
      by (destruct (d =? 0)%Z; lia).
    destruct (use_residual self && (d mod 3 =? 2)%Z) eqn:Hsc.
    - pose proof (@shortcut_run input_res y Cr _ st1 Hr (ie_shape Hy) HCr HCy)
        as Hsh.
      apply wp_bind.
      apply wp_run in Hsh. destruct Hsh as (t & st' & Hrun' & Ht).
      unfold wp at 1. rewrite Hrun'. apply wp_ret.
      constructor; cbn [fst snd].
      + exists y, st1. split; [exact Hrun|]. split; [exact Hy|].
        rewrite Hsc. exists t. split; [exact Hrun'|]. split; [exact Ht | reflexivity].
      + rewrite (se_shape Ht). exact (ie_shape Hy).
      + eexists. split; [rewrite (se_shape Ht); exact (ie_shape Hy) | exact HCy].
      + rewrite Hsc, (se_shortcuts Ht), (ie_shortcuts Hy), (ie_modules Hy).
        do 2 f_equal. lia.
      + rewrite (se_modules Ht). exact (ie_modules Hy).
      + rewrite (se_frozen Ht). exact (ie_frozen Hy).
      + rewrite (se_keep_track Ht). exact (ie_keep_track Hy).
      + pose proof (ie_hybrid Hy) as Hh. rewrite (se_hybrid Ht).
        destruct (d =? 0)%Z; [|exact Hh].
        destruct Hh as (h & cat & Hh1 & Hh2 & _). exists h. split; assumption.
    - apply wp_ret.
      constructor; cbn [fst snd].
      + exists y, st1. split; [exact Hrun|]. split; [exact Hy|].
        rewrite Hsc. split; reflexivity.
      + exact (ie_shape Hy).
      + exists Cr. split; assumption.
      + rewrite Hsc, app_nil_r. exact (ie_shortcuts Hy).
      + exact (ie_modules Hy).
      + exact (ie_frozen Hy).
      + exact (ie_keep_track Hy).
      + pose proof (ie_hybrid Hy) as Hh.
        destruct (d =? 0)%Z; [|exact Hh].
        destruct Hh as (h & cat & Hh1 & Hh2 & _). exists h. split; assumption.
  Qed.

End ShortcutAndStep.

(** ** The assembly loop *)

Section AssemblyLoop.

Variables (self : HINCEPTION) (L : Z).
Hypothesis HL : (0 < L)%Z.
Hypothesis Hnf : (0 < n_filters self)%Z.

Lemma index_zero (k : nat) : ((0 + Z.of_nat k =? 0)%Z) = (k =? 0)%nat.
  Proof.
    destruct k as [|k]; [reflexivity|].
    cbn [Nat.eqb]. apply Z.eqb_neq. lia.
  Qed.

Lemma loop_run (count : nat) :
    forall (first : nat) (st : builder) (x r : tensor) (C Cr : Z),
      tshape x = [L; C] -> (0 < C)%Z ->
      tshape r = [L; Cr] -> (0 < Cr)%Z ->
      modules_built (graph st) = Z.of_nat first ->
      wp (for_fold (map (fun k => (0 + Z.of_nat k)%Z) (seq first count))
                   (build_step self) (x, r)) st
         (loop_effect self L x first count st).
  Proof.
    induction count as [|count IH]; intros first st x r C Cr Hx HC Hr HCr Hmb.
    - cbn [seq map for_fold]. apply wp_ret.
      constructor; cbn [fst snd]; rewrite ?Nat.add_0_r, ?andb_false_r, ?app_nil_r;
        try reflexivity; try (eexists; split; eassumption).
      + exact Hmb.
      + destruct (use_residual self); rewrite app_nil_r; reflexivity.
      + lia.
    - cbn [seq map for_fold]. apply wp_bind.
      eapply wp_mono; [apply (@step_run self L HL Hnf x r C Cr _ st Hx HC Hr HCr)|].
      intros [x1 r1] st1 Hst.
      pose proof (st_shape Hst) as Hx1. cbn [fst] in Hx1.
      destruct (st_anchor Hst) as (Cr1 & Hr1 & HCr1). cbn [snd] in Hr1.
      assert (HC1 : (0 < 3 * n_filters self + n_filters self
                         + (if (0 + Z.of_nat first =? 0)%Z then 17 else 0))%Z)
        by (destruct (0 + Z.of_nat first =? 0)%Z; lia).
      assert (Hmb1 : modules_built (graph st1) = Z.of_nat (S first))
        by (rewrite (st_modules Hst), Hmb; lia).
      eapply wp_mono; [apply (IH (S first) st1 x1 r1 _ Cr1 Hx1 HC1 Hr1 HCr1 Hmb1)|].
      intros xr st' Hloop.
      pose proof (st_frozen Hst) as Hfz. pose proof (st_keep_track Hst) as Hkt.
      pose proof (st_hybrid Hst) as Hhy. pose proof (st_shortcuts Hst) as Hsp.
      rewrite index_zero in Hfz, Hkt, Hhy.
      pose proof (le_frozen Hloop) as Hfz'. pose proof (le_keep_track Hloop) as Hkt'.
      pose proof (le_hybrid Hloop) as Hhy'. cbn [Nat.eqb andb] in Hfz', Hkt', Hhy'.
      rewrite app_nil_r in Hfz'.
      constructor.
      + exact (le_current Hloop).
      + exact (le_anchor Hloop).
      + rewrite (le_modules Hloop). f_equal. lia.
      + rewrite (le_shortcuts Hloop), Hsp, Hmb. cbn [seq map filter].
        remember (0 + Z.of_nat first)%Z as d eqn:Hd.
        replace (Z.of_nat first) with d by lia.
        destruct (use_residual self); cbn [andb]; rewrite <- ?app_assoc;
          [|reflexivity].
        destruct (d mod 3 =? 2)%Z; reflexivity.
      + rewrite Hfz', Hfz. cbn [Nat.ltb Nat.leb]. rewrite andb_true_r. reflexivity.
      + rewrite Hkt', Hkt. cbn [Nat.ltb Nat.leb]. rewrite andb_true_r. lia.
      + cbn [Nat.ltb Nat.leb]. rewrite andb_true_r.
        destruct (first =? 0)%nat; rewrite Hhy'; exact Hhy.
  Qed.

  (** [build_model], from the state the constructor leaves. *)
Lemma build_model_run :
    (0 < length_TS self)%Z -> L = length_TS self -> (0 < n_classes self)%Z ->
    exists m st xr,
      construct self = Ok (m, st) /\
      inputs m = {| tid := 0; tshape := [L; 1%Z] |} /\
      tshape (outputs m) = [n_classes self] /\
      loop_effect self L (inputs m) 0 (Z.to_nat (depth self))
        (push (Input [L; 1%Z]) [] [L; 1%Z] (with_keep_track 0 empty_builder))
        xr
        {| graph := tl (tl (graph st)); keep_track := keep_track st;
           hybrid := hybrid st |} /\
      (exists gap_node out_node,
          graph st = out_node :: gap_node :: tl (tl (graph st)) /\
          op gap_node = GlobalAveragePooling1D /\
          inbound gap_node = [tid (fst xr)] /\
          op out_node = Dense (n_classes self) softmax).
  Proof.
    intros HTS HLeq Hcls.
    unfold construct, build_model, py_range.
    rewrite Z.sub_0_r, <- HLeq.
    set (start := push (Input [L; 1%Z]) [] [L; 1%Z]
                       (with_keep_track 0 empty_builder)).
    set (input_layer := {| tid := 0; tshape := [L; 1%Z] |}).
    assert (Hloop : wp (for_fold (map (fun k => (0 + Z.of_nat k)%Z)
                                      (seq 0 (Z.to_nat (depth self))))
                                 (build_step self) (input_layer, input_layer))
                       start
                       (loop_effect self L input_layer 0
                                    (Z.to_nat (depth self)) start)).
    { apply loop_run with (C := 1%Z) (Cr := 1%Z); try reflexivity; lia. }
    apply wp_run in Hloop. destruct Hloop as (xr & st1 & Hrun & Hloop).
    assert (Hin : infer (Input [L; 1%Z]) (map tshape []) = Some [L; 1%Z]).
    { cbn [map infer forallb]. destruct (Z.ltb_spec 0 L); [|lia].
      reflexivity. }
    destruct (le_current Hloop) as (Cx & Hxs & HCx).
    unfold bind at 1. unfold set_keep_track at 1.
    unfold bind at 1. unfold call at 1. rewrite Hin.
    fold start. fold input_layer.
    unfold bind at 1. cbn [length graph with_keep_track empty_builder].
    fold input_layer. rewrite Hrun.
    unfold bind at 1. unfold call at 1.
    rewrite (@infer_gap (fst xr) L Cx Hxs HL HCx).
    unfold bind at 1. unfold call at 1. cbn [map tshape infer].
    destruct (Z.ltb_spec 0 (n_classes self)); [|lia].
    destruct (Z.ltb_spec 0 Cx); [|lia]. cbn [andb ret].
    eexists. eexists. exists xr.
    split; [reflexivity|]. cbn [inputs outputs tshape].
    split; [reflexivity|]. split; [reflexivity|].
    cbn [graph push tl keep_track hybrid map tid].
    split.
    { destruct st1 as [g kt hy]. exact Hloop. }
    eexists. eexists. split; [reflexivity|]. cbn [op inbound].
    repeat split; reflexivity.
  Qed.

End AssemblyLoop.

(** ** The finished model *)

Section FinishedModel.

Variable self : HINCEPTION.
Hypothesis HTS : (0 < length_TS self)%Z.
Hypothesis Hnf : (0 < n_filters self)%Z.
Hypothesis Hcls : (0 < n_classes self)%Z.

  (** Every configuration with positive sizes builds, whatever its depth,
      and the finished graph reads as follows. *)
Lemma build_model_summary :
    exists m st,
      construct self = Ok (m, st) /\
      inputs m = {| tid := 0; tshape := [length_TS self; 1%Z] |} /\
      tshape (outputs m) = [n_classes self] /\
      modules_built (graph st) = Z.of_nat (Z.to_nat (depth self)) /\
      shortcut_positions (graph st)
      = (if use_residual self
         then filter (fun d => (d mod 3 =? 2)%Z) (py_range 0 (depth self))
         else []) /\
      frozen_convs (graph st)
      = (if (0 <? Z.to_nat (depth self))%nat then hybrid_bank 0 0 else []) /\
      keep_track st = (if (0 <? Z.to_nat (depth self))%nat then 17 else 0)%Z /\
      (if (0 <? Z.to_nat (depth self))%nat
       then exists h, hybrid st = Some h /\ tshape h = [length_TS self; 17%Z]
       else hybrid st = None).
  Proof.
    destruct (@build_model_run self (length_TS self) HTS Hnf HTS eq_refl Hcls)
      as (m & st & xr & Hrun & Hin & Hout & Hloop & gap & outn & Hg & Hgap & _ & Hdense).
    exists m, st. split; [exact Hrun|]. split; [exact Hin|]. split; [exact Hout|].
    pose proof (le_modules Hloop) as Hmb. pose proof (le_shortcuts Hloop) as Hsp.
    pose proof (le_frozen Hloop) as Hfz. pose proof (le_keep_track Hloop) as Hkt.
    pose proof (le_hybrid Hloop) as Hhy.
    rewrite Hin in Hfz.
    cbn [graph keep_track hybrid push with_keep_track empty_builder Nat.eqb andb
         Nat.add tid] in Hmb, Hsp, Hfz, Hkt, Hhy.
    cbn [shortcut_positions frozen_convs frozen_of is_add op app] in Hsp, Hfz.
    assert (Hgp : is_pool gap = false) by (unfold is_pool; rewrite Hgap; reflexivity).
    assert (Hop : is_pool outn = false) by (unfold is_pool; rewrite Hdense; reflexivity).
    assert (Hga : is_add gap = false) by (unfold is_add; rewrite Hgap; reflexivity).
    assert (Hoa : is_add outn = false) by (unfold is_add; rewrite Hdense; reflexivity).
    assert (Hgf : frozen_of gap = []) by (unfold frozen_of; rewrite Hgap; reflexivity).
    assert (Hof : frozen_of outn = []) by (unfold frozen_of; rewrite Hdense; reflexivity).
    rewrite Hg. unfold modules_built in *.
    cbn [filter shortcut_positions frozen_convs].
    rewrite Hgp, Hop, Hga, Hoa, Hgf, Hof, !app_nil_r.
    split; [exact Hmb|].
    split.
    { rewrite Hsp. unfold py_range. rewrite Z.sub_0_r. reflexivity. }
    split; [exact Hfz|]. split; [rewrite Hkt; lia|].
    exact Hhy.
  Qed.

End FinishedModel.

(** ** Channel count of an Inception module *)

(** C6. Every call of the Inception module on a tensor of shape [[L; C]]
    returns, and its output has [3 n_filters + n_filters] channels, plus the
    channels of the hybrid layer's output when the hybrid layer is fused; with
    [n_filters = 32] that is 128 channels without and 145 with the hybrid
    layer. *)
Theorem inception_output_channels (self : HINCEPTION) (x : tensor) (L C : Z)
    (use_hybrid_layer : bool) (st : builder) :
  tshape x = [L; C] -> (0 < L)%Z -> (0 < C)%Z -> (0 < n_filters self)%Z ->
  exists t st',
    _inception_module self x 1 linear use_hybrid_layer st = Ok (t, st') /\
    (if use_hybrid_layer
     then exists h, hybrid st' = Some h /\
                    channels t = (3 * n_filters self + n_filters self + channels h)%Z
     else channels t = (3 * n_filters self + n_filters self)%Z) /\
    (n_filters self = 32%Z ->
     channels t = if use_hybrid_layer then 145%Z else 128%Z).
Proof.
  intros Hx HL HC Hnf.
  pose proof (@inception_run self x L C Hx HL HC Hnf use_hybrid_layer st) as H.
  apply wp_run in H. destruct H as (t & st' & Hrun & Heff).
  exists t, st'. split; [exact Hrun|].
  pose proof (ie_shape Heff) as Hs. pose proof (ie_hybrid Heff) as Hh.
  unfold channels. rewrite Hs. cbn [last].
  destruct use_hybrid_layer.
  - destruct Hh as (h & cat & Hh1 & Hh2 & _). split.
    + exists h. split; [exact Hh1|]. rewrite Hh2. reflexivity.
    + intros ->. reflexivity.
  - split; [lia|]. intros ->. reflexivity.
Qed.

Lemma inception_output_channels_witness :
  exists t st',
    _inception_module example_default {| tid := 0; tshape := [100; 1]%Z |}
                      1 linear true empty_builder = Ok (t, st') /\
    channels t = 145%Z.
Proof.
  destruct (@inception_output_channels example_default
              {| tid := 0; tshape := [100; 1]%Z |} 100 1 true empty_builder)
    as (t & st' & Hrun & _ & H145); try reflexivity.
  exists t, st'. split; [exact Hrun|]. apply H145. reflexivity.
Defined.

(** ** Cadence of the shortcut modules *)

(** C7. At loop index [d] the step runs the Inception module on [x] and then,
    exactly when residual connections are enabled and [d mod 3 = 2], the
    shortcut module with anchor [input_res] and the Inception output as
    current activation, after which [x] and [input_res] are both its output;
    otherwise [x] is the Inception output and [input_res] is unchanged.  In the
    finished model the shortcuts sit after the modules [d < depth] with
    [d mod 3 = 2]; for [depth = 6] with residual connections these are exactly
    the modules 2 and 5. *)
Theorem shortcut_every_third_module (self : HINCEPTION) :
  (0 < length_TS self)%Z -> (0 < n_filters self)%Z -> (0 < n_classes self)%Z ->
  (forall (d : Z) (x input_res : tensor) (C Cr : Z) (st : builder),
      tshape x = [length_TS self; C] -> (0 < C)%Z ->
      tshape input_res = [length_TS self; Cr] -> (0 < Cr)%Z ->
      exists xr st' y st1,
        build_step self (x, input_res) d st = Ok (xr, st') /\
        _inception_module self x 1 linear (d =? 0)%Z st = Ok (y, st1) /\
        if use_residual self && (d mod 3 =? 2)%Z
        then exists t proj add,
            _shortcut_layer self input_res y st1 = Ok (t, st') /\
            xr = (t, t) /\
            shortcut_positions (graph st')
            = shortcut_positions (graph st) ++ [modules_built (graph st)] /\
            nth_error (graph st') 3 = Some proj /\
            inbound proj = [tid input_res] /\
            nth_error (graph st') 1 = Some add /\
            op add = Add /\
            inbound add = [S (length (graph st1)); tid y]
        else xr = (y, input_res) /\ st' = st1 /\
             shortcut_positions (graph st') = shortcut_positions (graph st))
  /\ (exists m st,
         construct self = Ok (m, st) /\
         shortcut_positions (graph st)
         = if use_residual self
           then filter (fun d => (d mod 3 =? 2)%Z) (py_range 0 (depth self))
           else [])
  /\ (depth self = 6%Z -> use_residual self = true ->
      exists m st,
        construct self = Ok (m, st) /\
        shortcut_positions (graph st) = [2; 5]%Z).
Proof.
  intros HTS Hnf Hcls. split; [|split].
  - intros d x input_res C Cr st Hx HC Hr HCr.
    pose proof (@step_run self (length_TS self) HTS Hnf x input_res C Cr d st
                          Hx HC Hr HCr) as H.
    apply wp_run in H. destruct H as (xr & st' & Hrun & Heff).
    destruct (st_route Heff) as (y & st1 & Hinc & Hy & Hroute).
    exists xr, st', y, st1. split; [exact Hrun|]. split; [exact Hinc|].
    pose proof (st_shortcuts Heff) as Hsp.
    destruct (use_residual self && (d mod 3 =? 2)%Z).
    + destruct Hroute as (t & Hsh & Ht & Hxr).
      destruct (se_nodes Ht) as (proj & add & Hp1 & _ & Hp3 & Ha1 & Ha2 & Ha3).
      exists t, proj, add. repeat split; assumption.
    + destruct Hroute as (Hxr & Hst). rewrite app_nil_r in Hsp.
      repeat split; assumption.
  - destruct (build_model_summary self HTS Hnf Hcls)
      as (m & st & Hrun & _ & _ & _ & Hsp & _).
    exists m, st. split; assumption.
  - intros Hd Hres.
    destruct (build_model_summary self HTS Hnf Hcls)
      as (m & st & Hrun & _ & _ & _ & Hsp & _).
    exists m, st. split; [exact Hrun|].
    rewrite Hsp, Hres, Hd. reflexivity.
Qed.

Lemma shortcut_every_third_module_witness :
  exists m st,
    construct example_default = Ok (m, st) /\
    shortcut_positions (graph st) = [2; 5]%Z.
Proof.
  destruct (@shortcut_every_third_module example_default) as (_ & _ & H);
    try reflexivity.
  apply H; reflexivity.
Defined.

(** ** Where the hybrid layer is fused *)

(** C8 (as amended). A call of the Inception module that fuses the hybrid
    layer applies one bank of custom filters to the module's own input [x]
    (not to the bottleneck output) and concatenates the hybrid output with
    the four learned branches.  The step of the loop fuses it at index 0 and
    at no other index.  Hence every model built with [depth >= 1] holds
    exactly one bank, the seventeen filters numbered 0 to 16, all applied to
    the raw input tensor. *)
Theorem hybrid_layer_only_in_first_module (self : HINCEPTION) :
  (0 < length_TS self)%Z -> (0 < n_filters self)%Z -> (0 < n_classes self)%Z ->
  (forall (x : tensor) (C : Z) (st : builder),
      tshape x = [length_TS self; C] -> (0 < C)%Z ->
      exists t st' h cat,
        _inception_module self x 1 linear true st = Ok (t, st') /\
        frozen_convs (graph st')
        = frozen_convs (graph st) ++ hybrid_bank (keep_track st) (tid x) /\
        hybrid st' = Some h /\
        nth_error (graph st') 2 = Some cat /\ op cat = Concatenate 2 /\
        length (inbound cat) = 5%nat /\ In (tid h) (inbound cat))
  /\ (forall (d : Z) (x input_res : tensor) (C Cr : Z) (st : builder),
         tshape x = [length_TS self; C] -> (0 < C)%Z ->
         tshape input_res = [length_TS self; Cr] -> (0 < Cr)%Z ->
         exists xr st',
           build_step self (x, input_res) d st = Ok (xr, st') /\
           if (d =? 0)%Z
           then frozen_convs (graph st')
                = frozen_convs (graph st) ++ hybrid_bank (keep_track st) (tid x) /\
                keep_track st' = (keep_track st + 17)%Z
           else frozen_convs (graph st') = frozen_convs (graph st) /\
                keep_track st' = keep_track st /\
                hybrid st' = hybrid st)
  /\ ((1 <= depth self)%Z ->
      exists m st h,
        construct self = Ok (m, st) /\
        tid (inputs m) = 0%nat /\
        frozen_convs (graph st) = hybrid_bank 0 (tid (inputs m)) /\
        length (frozen_convs (graph st)) = 17%nat /\
        keep_track st = 17%Z /\
        hybrid st = Some h /\ channels h = 17%Z).
Proof.
  intros HTS Hnf Hcls. split; [|split].
  - intros x C st Hx HC.
    pose proof (@inception_run self x (length_TS self) C Hx HTS HC Hnf true st) as H.
    apply wp_run in H. destruct H as (t & st' & Hrun & Heff).
    destruct (ie_hybrid Heff) as (h & cat & H1 & _ & H3 & H4 & H5 & H6).
    exists t, st', h, cat. split; [exact Hrun|]. split; [exact (ie_frozen Heff)|].
    repeat split; assumption.
  - intros d x input_res C Cr st Hx HC Hr HCr.
    pose proof (@step_run self (length_TS self) HTS Hnf x input_res C Cr d st
                          Hx HC Hr HCr) as H.
    apply wp_run in H. destruct H as (xr & st' & Hrun & Heff).
    exists xr, st'. split; [exact Hrun|].
    pose proof (st_frozen Heff) as Hfz. pose proof (st_keep_track Heff) as Hkt.
    pose proof (st_hybrid Heff) as Hhy.
    destruct (d =? 0)%Z.
    + split; assumption.
    + rewrite app_nil_r in Hfz. split; [exact Hfz|]. split; [lia | exact Hhy].
  - intro Hd.
    destruct (build_model_summary self HTS Hnf Hcls)
      as (m & st & Hrun & Hin & _ & _ & _ & Hfz & Hkt & Hhy).
    assert (Hpos : (0 <? Z.to_nat (depth self))%nat = true)
      by (apply Nat.ltb_lt; lia).
    rewrite Hpos in Hfz, Hkt, Hhy. destruct Hhy as (h & Hh1 & Hh2).
    exists m, st, h. split; [exact Hrun|]. rewrite Hin. cbn [tid].
    split; [reflexivity|]. split; [exact Hfz|].
    split; [rewrite Hfz; reflexivity|]. split; [exact Hkt|].
    split; [exact Hh1|]. unfold channels. rewrite Hh2. reflexivity.
Qed.

Lemma hybrid_layer_only_in_first_module_witness :
  exists m st h,
    construct example_default = Ok (m, st) /\
    frozen_convs (graph st) = hybrid_bank 0 0 /\
    hybrid st = Some h /\ channels h = 17%Z.
Proof.
  destruct (@hybrid_layer_only_in_first_module example_default) as (_ & _ & H);
    try reflexivity.
  destruct H as (m & st & h & Hrun & Hin & Hfz & _ & _ & Hh & Hc).
  - unfold example_default, HINCEPTION_default, depth. lia.
  - exists m, st, h. rewrite Hin in Hfz. repeat split; assumption.
Defined.

(** C8 as stated fails for a model without Inception modules: the build
    returns normally and the hybrid layer has not been invoked at all. *)
Lemma hybrid_layer_never_at_depth_0 :
  (exists m st,
      construct example_depth_0 = Ok (m, st) /\
      frozen_convs (graph st) = [] /\ hybrid st = None /\ keep_track st = 0%Z)
  /\ ~ (exists m st,
           construct example_depth_0 = Ok (m, st) /\
           length (frozen_convs (graph st)) = 17%nat).
Proof.
  split.
  - eexists. eexists. split; [vm_compute; reflexivity|].
    repeat split; reflexivity.
  - intros (m & st & Hrun & Hlen). vm_compute in Hrun.
    injection Hrun as <- <-. discriminate Hlen.
Qed.

(** ** Malformed configurations *)

(** C3 (as amended). [build_model] validates nothing itself.  With
    [depth < 1] (and a positive series length and class count) the loop body
    never runs and construction returns normally: the graph is the input
    layer, global average pooling over it, and the dense softmax head, with no
    Inception or shortcut module. *)
Theorem depth_below_one_builds (self : HINCEPTION) :
  (depth self < 1)%Z -> (0 < length_TS self)%Z -> (0 < n_classes self)%Z ->
  construct self
  = Ok ({| inputs := {| tid := 0; tshape := [length_TS self; 1%Z] |};
           outputs := {| tid := 2; tshape := [n_classes self] |} |},
        {| graph :=
             [ {| op := Dense (n_classes self) softmax; inbound := [1%nat];
                  out := [n_classes self] |};
               {| op := GlobalAveragePooling1D; inbound := [0%nat];
                  out := [1%Z] |};
               {| op := Input [length_TS self; 1%Z]; inbound := [];
                  out := [length_TS self; 1%Z] |} ];
           keep_track := 0;
           hybrid := None |}).
Proof.
  intros Hd HTS Hcls.
  unfold construct, build_model, py_range.
  replace (Z.to_nat (depth self - 0)) with 0%nat by lia.
  cbn [seq map for_fold].
  assert (E1 : (0 <? length_TS self)%Z = true) by (apply Z.ltb_lt; exact HTS).
  assert (E2 : (0 <? n_classes self)%Z = true) by (apply Z.ltb_lt; exact Hcls).
  unfold bind, set_keep_track, call, ret. cbn [map tshape infer forallb].
  rewrite E1. cbn [andb fst tshape map infer Z.ltb Z.compare].
  rewrite E1. cbn [andb fst tshape map infer Z.ltb Z.compare].
  rewrite E2. reflexivity.
Qed.

Lemma depth_below_one_builds_witness :
  exists m st,
    construct example_depth_0 = Ok (m, st) /\ length (graph st) = 3%nat.
Proof.
  eexists. eexists. split.
  - apply (@depth_below_one_builds example_depth_0); reflexivity.
  - reflexivity.
Defined.

(** C3 as stated fails: a configuration with [depth < 1] is malformed in
    the sense of the claim, and its construction does not fail. *)
Lemma depth_0_is_not_rejected :
  (depth example_depth_0 < 1)%Z
  /\ (exists m st, construct example_depth_0 = Ok (m, st))
  /\ construct example_depth_0 <> Raise ValueError.
Proof.
  split; [reflexivity|]. split.
  - eexists. eexists. vm_compute. reflexivity.
  - vm_compute. discriminate.
Qed.

(** ** The kernel lengths of the hybrid layer *)

(** C1 at [max_cf_length = 3].  The constructor derives the lengths 2, 4, 8
    (peaks: 4, 8), eight kernels in all; the hybrid layer that is built uses
    its own default lengths 2 to 64 and has seventeen channels. *)
Lemma hybrid_layer_ignores_max_cf_length :
  increasing_trend_kernels example_cf_3 = [2; 4; 8]%Z
  /\ decreasing_trend_kernels example_cf_3 = [2; 4; 8]%Z
  /\ peak_kernels example_cf_3 = [4; 8]%Z
  /\ (2 * max_cf_length example_cf_3 + (max_cf_length example_cf_3 - 1) = 8)%Z
  /\ exists m st h,
      construct example_cf_3 = Ok (m, st) /\
      hybrid st = Some h /\ channels h = 17%Z /\
      map (fun e : frozen_info => (prefix (fst (fst e)), size (fst (fst e))))
          (frozen_convs (graph st))
      = map (fun K => ("hybrid-increasse-"%string, K)) [2; 4; 8; 16; 32; 64]%Z
        ++ map (fun K => ("hybrid-decrease-"%string, K)) [2; 4; 8; 16; 32; 64]%Z
        ++ map (fun K => ("hybrid-peeks-"%string, K)) [4; 8; 16; 32; 64]%Z.
Proof.
  split; [reflexivity|]. split; [reflexivity|]. split; [reflexivity|].
  split; [reflexivity|].
  eexists. eexists. eexists. split; [vm_compute; reflexivity|].
  split; [reflexivity|]. split; reflexivity.
Qed.

(** ** Label encoding in [fit] *)

Section LabelEncoding.

Lemma insert_sorted_In (v w : Z) (l : list Z) :
    In w (OHE.insert_sorted v l) <-> w = v \/ In w l.
  Proof.
    induction l as [|h t IH]; cbn [OHE.insert_sorted In].
    - intuition.
    - destruct (Z.ltb_spec v h); [cbn [In]; intuition|].
      destruct (Z.eqb_spec v h); cbn [In]; [subst; intuition|].
      rewrite IH. intuition.
  Qed.

  (** The categories are the labels that occur. *)
Lemma unique_In (w : Z) (l : list Z) : In w (OHE.unique l) <-> In w l.
  Proof.
    induction l as [|h t IH]; cbn [OHE.unique fold_right In]; [tauto|].
    fold (OHE.unique t). rewrite insert_sorted_In, IH. intuition.
  Qed.

Lemma insert_sorted_sorted (v : Z) (l : list Z) :
    StronglySorted Z.lt l -> StronglySorted Z.lt (OHE.insert_sorted v l).
  Proof.
    induction l as [|h t IH]; intro Hs; cbn [OHE.insert_sorted].
    - repeat constructor.
    - apply StronglySorted_inv in Hs. destruct Hs as [Ht Hh].
      destruct (Z.ltb_spec v h).
      + constructor; [constructor; assumption|].
        constructor; [assumption|].
        rewrite Forall_forall in *. intros y Hy. specialize (Hh y Hy). lia.
      + destruct (Z.eqb_spec v h); [constructor; assumption|].
        constructor; [apply IH; exact Ht|].
        rewrite Forall_forall in *. intros y Hy.
        apply insert_sorted_In in Hy. destruct Hy as [-> | Hy]; [lia|].
        apply Hh. exact Hy.
  Qed.

  (** ... in increasing order, each once. *)
Lemma unique_sorted (l : list Z) : StronglySorted Z.lt (OHE.unique l).
  Proof.
    induction l as [|h t IH]; cbn [OHE.unique fold_right]; [constructor|].
    apply insert_sorted_sorted. exact IH.
  Qed.

Lemma filter_none {A : Type} (f : A -> bool) (l : list A) :
  (forall a, In a l -> f a = false) -> filter f l = [].
Proof.
  induction l as [|a l IH]; intro H; [reflexivity|].
  cbn [filter]. rewrite (H a (or_introl eq_refl)).
  apply IH. intros b Hb. apply H. right. exact Hb.
Qed.

(** At a label of the list, the number of smaller categories is its place
    among them. *)
Lemma sorted_rank (cats : list Z) (y : Z) :
  StronglySorted Z.lt cats -> In y cats ->
  nth_error cats (length (filter (fun c => (c <? y)%Z) cats)) = Some y.
Proof.
  induction 1 as [|c t Hs IH Hc]; intro Hin; [contradiction|].
  rewrite Forall_forall in Hc. cbn [filter].
  destruct Hin as [->|Hin].
  - rewrite Z.ltb_irrefl.
    rewrite filter_none; [reflexivity|].
    intros c Hc'. apply Z.ltb_ge. specialize (Hc c Hc'). lia.
  - specialize (Hc y Hin). apply Z.ltb_lt in Hc. rewrite Hc.
    cbn [length nth_error]. apply IH. exact Hin.
Qed.

(** The array has one entry per label. *)
Lemma np_asanyarray_length (y : list Z) : length (np_asanyarray y) = length y.
Proof.
  unfold np_asanyarray. destruct (result_type y); try reflexivity.
  apply length_map.
Qed.

Lemma np_asanyarray_not_nil (y : list Z) : y <> [] -> np_asanyarray y <> [].
Proof.
  intros Hne E. apply (f_equal (@length Z)) in E.
  rewrite np_asanyarray_length in E. destruct y; [contradiction | discriminate E].
Qed.

Lemma promote_all_int64 (rest : list Z) :
  Forall (fun v => fits_int64 v = true) rest ->
  fold_left (fun d w => promote_types d (dtype_of_int w)) rest int64 = int64.
Proof.
  induction 1 as [|w rest Hw Hrest IH]; [reflexivity|].
  cbn [fold_left]. unfold dtype_of_int at 2. rewrite Hw. exact IH.
Qed.

(** Labels within the signed 64-bit range are held as they are. *)
Lemma np_asanyarray_int64 (y : list Z) :
  Forall (fun v => fits_int64 v = true) y -> np_asanyarray y = y.
Proof.
  intro H. unfold np_asanyarray. destruct H as [|v rest Hv Hrest]; [reflexivity|].
  unfold result_type, dtype_of_int at 2. rewrite Hv.
  rewrite (promote_all_int64 Hrest). reflexivity.
Qed.

(** Fitting on one column: whatever the encoder held, the categories become
    those of this column, and each row is the indicator of its entry among
    them. *)
Lemma fit_transform_column (enc : OHE.encoder) (ys : list Z) :
  ys <> [] ->
  OHE.fit_transform enc (map (fun v => [v]) ys)
  = Ok ({| OHE.categories_ := Some [OHE.unique ys] |},
        map (OHE.indicator (OHE.unique ys)) ys).
Proof.
  intro Hne. destruct ys as [|y ys]; [contradiction|].
  unfold OHE.fit_transform. cbn [map length seq].
  assert (Hcol : OHE.column 0 ([y] :: map (fun v => [v]) ys) = y :: ys).
  { unfold OHE.column. cbn [map nth]. f_equal. rewrite map_map.
    cbn [nth]. apply map_id. }
  rewrite Hcol. f_equal. f_equal.
  cbn [OHE.encode_row]. rewrite app_nil_r. f_equal.
  rewrite map_map. apply map_ext. intro v.
  cbn [OHE.encode_row]. apply app_nil_r.
Qed.

(** The same for a label sequence, through the array numpy makes of it. *)
Lemma fit_transform_labels (enc : OHE.encoder) (ys : list Z) :
  ys <> [] ->
  OHE.fit_transform enc (expand_dims_1 ys)
  = Ok ({| OHE.categories_ := Some [OHE.unique (np_asanyarray ys)] |},
        map (OHE.indicator (OHE.unique (np_asanyarray ys))) (np_asanyarray ys)).
Proof.
  intro Hne. unfold expand_dims_1.
  apply fit_transform_column. apply np_asanyarray_not_nil. exact Hne.
Qed.

(** No labels: the encoder raises. *)
Lemma fit_transform_no_labels (enc : OHE.encoder) :
  OHE.fit_transform enc (expand_dims_1 []) = Raise ValueError.
Proof. reflexivity. Qed.

End LabelEncoding.

(** Without [plot_test] the validation arguments are not read at all. *)
Lemma fit_without_plot_test {X : Type} (self : HINCEPTION)
    (xtrain : list X) (ytrain : list Z) (xval : option (list X))
    (yval : option (list Z)) (call : fit_call X) :
  fit self xtrain ytrain xval yval false = Ok call ->
  fit_validation_data call = None
  /\ fit self xtrain ytrain None None false = Ok call.
Proof.
  unfold fit. destruct (OHE.fit_transform OHE.new (expand_dims_1 ytrain)) as [r|e];
    cbn [rbind]; intro H; [|discriminate].
  injection H as <-. split; reflexivity.
Qed.




(** ** Batch size in [fit] *)

(** C10 (as amended). Every call of [fit] that reaches training passes
    [min(batch_size, n // 10)] as batch size, [n] being the number of
    training samples; for [n < 10] and a configured batch size that is not
    negative, that is 0. *)
Theorem effective_batch_size {X : Type} (self : HINCEPTION)
    (xtrain : list X) (ytrain : list Z) (xval : option (list X))
    (yval : option (list Z)) (plot_test : bool) :
  ytrain <> [] ->
  (plot_test = true -> exists yv, yval = Some yv /\ yv <> []) ->
  exists call,
    fit self xtrain ytrain xval yval plot_test = Ok call /\
    fit_batch_size call
    = Z.min (batch_size self) (Z.of_nat (length xtrain) / 10) /\
    ((length xtrain < 10)%nat -> (0 <= batch_size self)%Z ->
     fit_batch_size call = 0%Z).
Proof.
  intros Ht Hv. unfold fit.
  rewrite (fit_transform_labels OHE.new Ht). cbn [rbind snd].
  assert (Hsmall : (length xtrain < 10)%nat -> (0 <= batch_size self)%Z ->
                   Z.min (batch_size self) (Z.of_nat (length xtrain) / 10) = 0%Z).
  { intros Hn Hb. rewrite Z.div_small by lia. lia. }
  destruct plot_test.
  - destruct (Hv eq_refl) as (yv & -> & Hyv).
    rewrite (fit_transform_labels OHE.new Hyv). cbn [rbind snd].
    eexists. split; [reflexivity|]. cbn [fit_batch_size].
    split; [reflexivity | exact Hsmall].
  - eexists. split; [reflexivity|]. cbn [fit_batch_size].
    split; [reflexivity | exact Hsmall].
Qed.

Lemma effective_batch_size_witness :
  exists call,
    fit example_default [tt; tt; tt] [0; 1; 0]%Z None None false = Ok call /\
    fit_batch_size call = 0%Z.
Proof.
  destruct (@effective_batch_size unit example_default [tt; tt; tt] [0; 1; 0]%Z
              None None false) as (call & Hrun & _ & H0).
  - discriminate.
  - discriminate.
  - exists call. split; [exact Hrun|]. apply H0.
    + cbn [length]. lia.
    + unfold example_default, HINCEPTION_default, batch_size. lia.
Defined.

(** C10 as stated fails for a negative configured batch size: with three
    training samples the batch size passed on is that negative value, not
    0. *)
Lemma negative_batch_size_is_passed_on :
  (length [tt; tt; tt] < 10)%nat
  /\ exists call,
      fit example_negative_batch [tt; tt; tt] [0; 1; 0]%Z None None false
      = Ok call /\
      fit_batch_size call = (-1)%Z /\
      fit_batch_size call <> 0%Z.
Proof.
  split; [cbn [length]; lia|].
  eexists. split; [reflexivity|]. split; [reflexivity | discriminate].
Qed.

(* ===================================================================== *)
(** * Further properties of the filter generator *)
(* ===================================================================== *)

Section SliceAssignment.

Variable C : nat.

Lemma rmapM_repeat {A B : Type} (f : A -> result B) (a : A) (b : B) (m : nat) :
  f a = Ok b -> rmapM f (repeat a m) = Ok (repeat b m).
Proof.
  intro H. induction m as [|m IH]; [reflexivity|].
  cbn [repeat rmapM]. rewrite H. cbn [rbind]. rewrite IH. reflexivity.
Qed.

(** Broadcasting a column of values to [m] taps: the lengths agree, or the
    column has one value, or numpy refuses. *)
Lemma broadcast_to_column (m : nat) (xs : list Q) :
  Np.broadcast_to m C 1 (Np.reshape_col xs)
  = if (length xs =? m)%nat then Ok (across C xs)
    else match xs with
         | [x] => Ok (across C (repeat x m))
         | _ => Raise ValueError
         end.
Proof.
  destruct (length xs =? m)%nat eqn:E.
  - apply Nat.eqb_eq in E. subst m. apply broadcast_column.
  - unfold Np.broadcast_to, Np.broadcast_axis, Np.reshape_col.
    rewrite length_map, E.
    destruct xs as [|x [|y xs]]; cbn [map rbind]; try reflexivity.
    rewrite rmapM_repeat with (b := repeat [x] C) by apply broadcast_cell.
    unfold across. rewrite map_repeat. reflexivity.
Qed.

Lemma set_slice_column (start stop : nat) (xs : list Q) (a : Np.array3) :
  (start <= stop)%nat -> (stop <= length a)%nat ->
  Np.set_slice C 1 start stop (Np.reshape_col xs) a
  = rbind (Np.broadcast_to (stop - start) C 1 (Np.reshape_col xs))
          (fun vs => Ok (firstn start a ++ vs ++ skipn stop a)).
Proof.
  intros H1 H2. unfold Np.set_slice.
  replace (Nat.min start (length a)) with start by lia.
  replace (Nat.max start (Nat.min stop (length a))) with stop by lia.
  reflexivity.
Qed.

Lemma set_slice_column_ok (start stop : nat) (xs : list Q) (a : Np.array3) :
  (start <= stop)%nat -> (stop <= length a)%nat ->
  length xs = (stop - start)%nat \/ length xs = 1%nat ->
  exists a', Np.set_slice C 1 start stop (Np.reshape_col xs) a = Ok a'
             /\ length a' = length a.
Proof.
  intros H1 H2 Hlen. rewrite set_slice_column by assumption.
  rewrite broadcast_to_column.
  assert (Hsame : forall ys : list Q, length ys = (stop - start)%nat ->
            length (firstn start a ++ across C ys ++ skipn stop a) = length a).
  { intros ys Hys.
    rewrite !length_app, across_length, length_firstn, length_skipn. lia. }
  destruct (length xs =? stop - start)%nat eqn:E.
  - apply Nat.eqb_eq in E. eexists. split; [reflexivity|]. apply Hsame. exact E.
  - apply Nat.eqb_neq in E. destruct Hlen as [Hlen|Hlen]; [contradiction|].
    destruct xs as [|x [|y xs]]; try discriminate.
    eexists. split; [reflexivity|]. apply Hsame. apply repeat_length.
Qed.

Lemma set_slice_column_raise (start stop : nat) (xs : list Q) (a : Np.array3) :
  (start <= stop)%nat -> (stop <= length a)%nat ->
  length xs <> (stop - start)%nat -> length xs <> 1%nat ->
  Np.set_slice C 1 start stop (Np.reshape_col xs) a = Raise ValueError.
Proof.
  intros H1 H2 Hne H1e. rewrite set_slice_column by assumption.
  rewrite broadcast_to_column.
  destruct (Nat.eqb_spec (length xs) (stop - start)); [contradiction|].
  destruct xs as [|x [|y xs]]; try reflexivity. cbn [length] in H1e. lia.
Qed.

End SliceAssignment.

Lemma linspace_length (a b : Q) (num : nat) : length (Np.linspace a b num) = num.
Proof.
  destruct num as [|[|m]]; try reflexivity.
  unfold Np.linspace. rewrite length_app, length_map, length_seq. cbn [length]. lia.
Qed.

Lemma ramp_length_any (K : nat) : length (ramp K) = (K / 4)%nat.
Proof.
  unfold ramp, xmesh. rewrite length_map.
  pose proof (linspace_length 0 1 (K / 4 + 1)) as H.
  destruct (Np.linspace 0 1 (K / 4 + 1)) as [|x l]; cbn [length tl] in *; lia.
Qed.

(** The quotients that bound the six segments, as linear facts. *)
Lemma segment_bounds (K : nat) :
  (K = 4 * (K / 4) + K mod 4 /\ K mod 4 < 4
   /\ K = 2 * (K / 2) + K mod 2 /\ K mod 2 < 2
   /\ 3 * K = 4 * (3 * K / 4) + (3 * K) mod 4 /\ (3 * K) mod 4 < 4
   /\ 5 * K = 4 * (5 * K / 4) + (5 * K) mod 4 /\ (5 * K) mod 4 < 4)%nat.
Proof.
  repeat split; first [apply Nat.div_mod_eq | apply Nat.mod_upper_bound; discriminate].
Qed.

Section PeakOutcome.

Variables (K C : nat).

Ltac peak_values :=
  rewrite ?filter_right_column, ?filter_left_column, ?neg_column, ?scale_column.

Ltac value_length :=
  repeat rewrite ?length_map, ?length_rev, ?ramp_length_any.

(** One slice assignment of [peak_filter] that goes through. *)
Ltac slice_ok a' E Hlen :=
  match goal with
  | |- context [Np.set_slice C 1 ?start ?stop (Np.reshape_col ?xs) ?a] =>
      let H := fresh in
      assert (H : exists a', Np.set_slice C 1 start stop (Np.reshape_col xs) a = Ok a'
                             /\ length a' = length a)
        by (apply set_slice_column_ok; value_length; lia);
      destruct H as (a' & E & Hlen); rewrite E; cbn [rbind]
  end.

Ltac slice_raise :=
  match goal with
  | |- context [Np.set_slice C 1 ?start ?stop (Np.reshape_col ?xs) ?a] =>
      rewrite (@set_slice_column_raise C start stop xs a)
        by (value_length; lia)
  end.

Lemma peak_filter_returns :
  (K mod 4 = 0 \/ K / 4 = 1)%nat ->
  exists f, peak_filter K C = Ok f /\ length f = (K + K / 2)%nat.
Proof.
  intro H. pose proof (segment_bounds K) as B.
  unfold peak_filter. peak_values.
  assert (L0 : length (Np.zeros (K + K / 2) C 1) = (K + K / 2)%nat)
    by apply repeat_length.
  slice_ok f1 E1 L1. slice_ok f2 E2 L2. slice_ok f3 E3 L3.
  slice_ok f4 E4 L4. slice_ok f5 E5 L5. slice_ok f6 E6 L6.
  exists f6. split; [reflexivity | lia].
Qed.

Lemma peak_filter_raises :
  (K mod 4 <> 0)%nat -> (K / 4 <> 1)%nat ->
  peak_filter K C = Raise ValueError.
Proof.
  intros Hr Hn. pose proof (segment_bounds K) as B.
  unfold peak_filter. peak_values.
  assert (L0 : length (Np.zeros (K + K / 2) C 1) = (K + K / 2)%nat)
    by apply repeat_length.
  slice_ok f1 E1 L1.
  destruct (Nat.eq_dec (K mod 4) 1) as [R1|R1].
  - slice_ok f2 E2 L2. slice_ok f3 E3 L3. slice_raise. reflexivity.
  - slice_raise. reflexivity.
Qed.

End PeakOutcome.

(** X1. The six slice assignments of the peak filter go through exactly for
    the lengths that are a multiple of four or have [K // 4 = 1] (4 to 7, by
    broadcasting a single value); for every other length numpy refuses an
    assignment and the construction raises. *)
Theorem peak_filter_outcome (K C : nat) :
  ((K mod 4 = 0 \/ K / 4 = 1)%nat ->
   exists f, peak_filter K C = Ok f /\ length f = (K + K / 2)%nat)
  /\ (~ (K mod 4 = 0 \/ K / 4 = 1)%nat -> peak_filter K C = Raise ValueError).
Proof.
  split.
  - apply peak_filter_returns.
  - intro H. apply peak_filter_raises; intro; apply H; [left | right]; assumption.
Qed.

Lemma peak_filter_outcome_witness :
  (exists f, peak_filter 6 2 = Ok f /\ length f = 9%nat)
  /\ peak_filter 2 1 = Raise ValueError
  /\ peak_filter 9 1 = Raise ValueError.
Proof.
  split; [|split].
  - apply (proj1 (peak_filter_outcome 6 2)). right. reflexivity.
  - apply (proj2 (peak_filter_outcome 2 1)). intros [H|H]; discriminate H.
  - apply (proj2 (peak_filter_outcome 9 1)). intros [H|H]; discriminate H.
Defined.

Section KernelShape.

Variable C : nat.

Lemma across_rev (xs : list Q) : rev (across C xs) = across C (rev xs).
Proof. unfold across. symmetry. apply map_rev. Qed.

Lemma across_app (xs ys : list Q) : across C (xs ++ ys) = across C xs ++ across C ys.
Proof. unfold across. apply map_app. Qed.

Lemma nth_repeat_cell (c : nat) (x : Q) :
  (c < C)%nat -> nth 0 (nth c (repeat [x] C) []) 0 = x.
Proof.
  intro H. revert c H. induction C as [|n IH]; intros c H; [lia|].
  destruct c as [|c]; cbn [repeat nth]; [reflexivity|]. apply IH. lia.
Qed.

Lemma channel_taps_across (c : nat) (xs : list Q) :
  (c < C)%nat -> channel_taps c (across C xs) = xs.
Proof.
  intro H. unfold channel_taps, across. rewrite map_map.
  rewrite <- (map_id xs) at 2. apply map_ext. intro x.
  apply nth_repeat_cell. exact H.
Qed.

Lemma Qsum_app (l1 l2 : list Q) : Qsum (l1 ++ l2) == Qsum l1 + Qsum l2.
Proof.
  unfold Qsum. induction l1 as [|x l1 IH]; cbn [app fold_right].
  - ring.
  - rewrite IH. ring.
Qed.

Lemma Qsum_rev (l : list Q) : Qsum (rev l) == Qsum l.
Proof.
  induction l as [|x l IH]; cbn [rev]; [reflexivity|].
  rewrite Qsum_app, IH. unfold Qsum. cbn [fold_right]. ring.
Qed.

Lemma Qsum_opp (l : list Q) : Qsum (map Qopp l) == - Qsum l.
Proof.
  unfold Qsum. induction l as [|x l IH]; cbn [map fold_right]; [reflexivity|].
  rewrite IH. ring.
Qed.

Lemma Qsum_scale (k : Q) (l : list Q) : Qsum (map (Qmult k) l) == k * Qsum l.
Proof.
  unfold Qsum. induction l as [|x l IH]; cbn [map fold_right]; [ring|].
  rewrite IH. ring.
Qed.

End KernelShape.

(** X2. For every length that is a multiple of four the peak kernel reads
    the same from either end. *)
Theorem peak_filter_palindrome (K C : nat) :
  (K mod 4 = 0)%nat ->
  exists f, peak_filter K C = Ok f /\ rev f = f.
Proof.
  intro Hmod. rewrite (multiple_of_four K Hmod).
  eexists. split; [apply peak_filter_blocks|].
  set (r := ramp (4 * (K / 4))).
  rewrite !rev_app_distr, !across_rev, <- !map_rev, !rev_involutive.
  rewrite <- !app_assoc. reflexivity.
Qed.

Lemma peak_filter_palindrome_witness :
  exists f, peak_filter 16 3 = Ok f /\ rev f = f.
Proof. apply (@peak_filter_palindrome 16 3). reflexivity. Defined.

(** X3. For every length that is a multiple of four the weights of the peak
    kernel add up to zero in every input channel. *)
Theorem peak_filter_zero_sum (K C c : nat) :
  (K mod 4 = 0)%nat -> (c < C)%nat ->
  exists f, peak_filter K C = Ok f /\ Qsum (channel_taps c f) == 0.
Proof.
  intros Hmod Hc. rewrite (multiple_of_four K Hmod).
  eexists. split; [apply peak_filter_blocks|].
  set (r := ramp (4 * (K / 4))).
  rewrite <- !across_app, (channel_taps_across _ Hc).
  rewrite !Qsum_app, !Qsum_opp, !Qsum_scale, !Qsum_rev. ring.
Qed.

Lemma peak_filter_zero_sum_witness :
  exists f, peak_filter 8 2 = Ok f /\ Qsum (channel_taps 1 f) == 0.
Proof. apply (@peak_filter_zero_sum 8 2 1); [reflexivity | lia]. Defined.

Section PeakLobes.

Lemma mesh_point_unit (n j : nat) :
  (1 <= j <= n)%nat ->
  0 < inject_Z (Z.of_nat j) / inject_Z (Z.of_nat n)
  /\ inject_Z (Z.of_nat j) / inject_Z (Z.of_nat n) <= 1.
Proof.
  intro H.
  assert (Hn : 0 < inject_Z (Z.of_nat n))
    by (change 0 with (inject_Z 0); rewrite <- Zlt_Qlt; lia).
  split.
  - apply Qlt_shift_div_l; [exact Hn|]. rewrite Qmult_0_l.
    change 0 with (inject_Z 0). rewrite <- Zlt_Qlt. lia.
  - apply Qle_shift_div_r; [exact Hn|]. rewrite Qmult_1_l.
    rewrite <- Zle_Qle. lia.
Qed.

Lemma ramp_unit (n : nat) :
  Forall (fun v => 0 < v /\ v <= 1) (ramp (4 * n)).
Proof.
  unfold ramp. apply Forall_map.
  pose proof (xmesh_points n) as H.
  assert (Hr : Forall (fun q => 0 < q /\ q <= 1)
                 (map (fun j => inject_Z (Z.of_nat j) / inject_Z (Z.of_nat n))
                      (seq 1 n))).
  { apply Forall_map. apply Forall_forall. intros j Hj. apply in_seq in Hj.
    apply mesh_point_unit. lia. }
  revert Hr. induction H as [|x q xs qs Hxq _ IH]; intro Hr; constructor.
  - apply Forall_inv in Hr. destruct Hr as [H0 H1].
    rewrite <- Hxq in H0, H1.
    change (x ^ 2) with (x * x). split.
    + apply Qmult_lt_0_compat; exact H0.
    + setoid_replace 1 with (1 * 1) by ring.
      apply Qmult_le_compat_nonneg; split;
        first [apply Qlt_le_weak; exact H0 | exact H1].
  - apply IH. apply Forall_inv_tail in Hr. exact Hr.
Qed.

Lemma lobe_negative (l : list Q) :
  Forall (fun v => 0 < v /\ v <= 1) l ->
  Forall (fun v => -1 # 1 <= v /\ v < 0) (map Qopp l).
Proof.
  intro H. apply Forall_map. eapply Forall_impl; [|exact H].
  intros v [H0 H1]. cbv beta. split.
  - change (-1 # 1) with (- (1)). apply Qopp_le_compat. exact H1.
  - change 0 with (- 0). apply Qopp_lt_compat. exact H0.
Qed.

Lemma lobe_positive (l : list Q) :
  Forall (fun v => 0 < v /\ v <= 1) l ->
  Forall (fun v => 0 < v /\ v <= 2) (map (Qmult 2) l).
Proof.
  intro H. apply Forall_map. eapply Forall_impl; [|exact H].
  intros v [H0 H1]. cbv beta. split.
  - apply Qmult_lt_0_compat; [reflexivity | exact H0].
  - setoid_replace 2 with (2 * 1) at 2 by ring.
    apply Qmult_le_l; [reflexivity | exact H1].
Qed.

End PeakLobes.

(** X4. For a length that is a multiple of four the taps of the peak
    kernel form three runs of [K // 2] taps each: weights in [-1, 0) on the
    left, weights in (0, 2] in the middle, weights in [-1, 0) on the right. *)
Theorem peak_filter_lobes (K C c : nat) :
  (K mod 4 = 0)%nat -> (c < C)%nat ->
  exists f left middle right,
    peak_filter K C = Ok f /\
    channel_taps c f = left ++ middle ++ right /\
    length left = (K / 2)%nat /\ length middle = (K / 2)%nat /\
    length right = (K / 2)%nat /\
    Forall (fun v => -1 # 1 <= v /\ v < 0) left /\
    Forall (fun v => 0 < v /\ v <= 2) middle /\
    Forall (fun v => -1 # 1 <= v /\ v < 0) right.
Proof.
  intros Hmod Hc. pose proof (multiple_of_four K Hmod) as HK.
  set (n := (K / 4)%nat) in *.
  assert (Hhalf : (K / 2 = n + n)%nat).
  { rewrite HK. replace (4 * n)%nat with ((n + n) * 2)%nat by lia.
    apply Nat.div_mul. discriminate. }
  pose proof (ramp_unit n) as Hu. pose proof (ramp_length n) as Hlen.
  rewrite HK. set (r := ramp (4 * n)) in *.
  assert (Hrev : Forall (fun v => 0 < v /\ v <= 1) (rev r))
    by (apply Forall_rev; exact Hu).
  exists (across C (map Qopp r) ++ across C (map Qopp (rev r))
          ++ across C (map (Qmult 2) r) ++ across C (map (Qmult 2) (rev r))
          ++ across C (map Qopp r) ++ across C (map Qopp (rev r))).
  exists (map Qopp r ++ map Qopp (rev r)),
         (map (Qmult 2) r ++ map (Qmult 2) (rev r)),
         (map Qopp r ++ map Qopp (rev r)).
  split; [apply peak_filter_blocks|].
  split.
  { rewrite <- !across_app, (channel_taps_across _ Hc), <- !app_assoc.
    reflexivity. }
  rewrite <- HK, Hhalf.
  repeat split;
    try (rewrite length_app, !length_map, ?length_rev, Hlen; reflexivity);
    apply Forall_app; split;
    first [apply lobe_negative | apply lobe_positive]; assumption.
Qed.

Lemma peak_filter_lobes_witness :
  exists f left middle right,
    peak_filter 8 1 = Ok f /\
    channel_taps 0 f = left ++ middle ++ right /\
    length middle = 4%nat /\
    Forall (fun v => 0 < v /\ v <= 2) middle.
Proof.
  destruct (@peak_filter_lobes 8 1 0) as
    (f & l & m & r & Hf & Ht & _ & Hm & _ & _ & Hpos & _);
    [reflexivity | lia |].
  exists f, l, m, r. repeat split; assumption.
Defined.

Section TrendShape.

Variable C : nat.

Lemma channel_taps_rows (c : nat) (v : nat -> Q) (l : list nat) :
  (c < C)%nat ->
  channel_taps c (map (fun i => repeat [v i] C) l) = map v l.
Proof.
  intro H. unfold channel_taps. rewrite map_map. apply map_ext. intro i.
  apply nth_repeat_cell. exact H.
Qed.

Lemma alternating_sum (K : nat) :
  Qsum (map (fun i => if Nat.odd i then 1 else -1 # 1) (seq 0 K))
  == if Nat.even K then 0 else -1 # 1.
Proof.
  induction K as [|K IH]; [reflexivity|].
  rewrite seq_S, map_app, Qsum_app, IH. cbn [Nat.add map]. unfold Qsum.
  cbn [fold_right].
  rewrite Nat.even_succ, <- Nat.negb_odd.
  destruct (Nat.odd K); cbn [negb]; reflexivity.
Qed.

Lemma rev_seq_0 (K : nat) :
  rev (seq 0 K) = map (fun i => (K - 1 - i)%nat) (seq 0 K).
Proof.
  induction K as [|K IH]; [reflexivity|].
  rewrite seq_S at 1. rewrite rev_app_distr. cbn [rev app Nat.add].
  cbn [seq map]. f_equal; [lia|].
  rewrite IH, <- seq_shift, map_map. apply map_ext. intro i. lia.
Qed.

End TrendShape.

(** X5. In every input channel the weights of the increasing kernel add up
    to 0 for an even length and to -1 for an odd one; those of the decreasing
    kernel to 0 and +1. *)
Theorem trend_filter_sums (K C c : nat) :
  (c < C)%nat ->
  Qsum (channel_taps c (increasing_filter K C))
  == (if Nat.even K then 0 else -1 # 1)
  /\ Qsum (channel_taps c (decreasing_filter K C))
     == (if Nat.even K then 0 else 1).
Proof.
  intro Hc. split.
  - rewrite increasing_filter_taps, (channel_taps_rows _ _ Hc).
    apply alternating_sum.
  - rewrite decreasing_filter_taps, (channel_taps_rows _ _ Hc).
    assert (E : map (fun i => if Nat.odd i then -1 # 1 else 1) (seq 0 K)
                = map Qopp (map (fun i => if Nat.odd i then 1 else -1 # 1) (seq 0 K))).
    { rewrite map_map. apply map_ext. intro i. destruct (Nat.odd i); reflexivity. }
    rewrite E, Qsum_opp, alternating_sum.
    destruct (Nat.even K); reflexivity.
Qed.

Lemma trend_filter_sums_witness :
  Qsum (channel_taps 0 (increasing_filter 64 1)) == 0
  /\ Qsum (channel_taps 0 (decreasing_filter 3 1)) == 1.
Proof.
  split.
  - apply (proj1 (@trend_filter_sums 64 1 0 (Nat.lt_0_1))).
  - apply (proj2 (@trend_filter_sums 3 1 0 (Nat.lt_0_1))).
Defined.

(** X6. Read from the last tap to the first, the increasing kernel of an
    even length is the decreasing kernel of that length (and the other way
    round); for an odd length each kernel is its own mirror image. *)
Theorem trend_filter_mirror (K C : nat) :
  rev (increasing_filter K C)
  = (if Nat.even K then decreasing_filter K C else increasing_filter K C)
  /\ rev (decreasing_filter K C)
     = (if Nat.even K then increasing_filter K C else decreasing_filter K C).
Proof.
  assert (Hpar : forall i, In i (seq 0 K) ->
            Nat.odd (K - 1 - i) = if Nat.even K then negb (Nat.odd i) else Nat.odd i).
  { intros i Hi. apply in_seq in Hi.
    destruct K as [|n]; [lia|].
    replace (S n - 1 - i)%nat with (n - i)%nat by lia.
    rewrite Nat.odd_sub by lia. rewrite Nat.even_succ.
    destruct (Nat.odd n), (Nat.odd i); reflexivity. }
  rewrite !increasing_filter_taps, !decreasing_filter_taps.
  rewrite <- !map_rev, rev_seq_0, !map_map.
  split.
  - destruct (Nat.even K) eqn:E; apply map_ext_in; intros i Hi;
      rewrite (Hpar i Hi); destruct (Nat.odd i); reflexivity.
  - destruct (Nat.even K) eqn:E; apply map_ext_in; intros i Hi;
      rewrite (Hpar i Hi); destruct (Nat.odd i); reflexivity.
Qed.

(* ===================================================================== *)
(** * Further properties of the constructor and the builder *)
(* ===================================================================== *)

Lemma py_range_length (start stop : Z) :
  length (py_range start stop) = Z.to_nat (stop - start).
Proof. unfold py_range. rewrite length_map. apply length_seq. Qed.

Lemma py_range_tl (start stop : Z) :
  tl (py_range start stop) = py_range (start + 1) stop.
Proof.
  unfold py_range.
  destruct (Z.to_nat (stop - start)) as [|m] eqn:E.
  - replace (Z.to_nat (stop - (start + 1))) with 0%nat by lia. reflexivity.
  - replace (Z.to_nat (stop - (start + 1))) with m by lia.
    cbn [seq map tl]. rewrite <- seq_shift, map_map.
    apply map_ext. intro k. lia.
Qed.

(** X7. The three lists the constructor derives from [max_cf_length]: the
    peak lengths are the trend lengths without the first; there are
    [max(0, max_cf_length)] trend lengths per family; and the trend lengths
    are the lengths the hybrid layer really uses exactly when
    [max_cf_length = 6]. *)
Theorem constructor_kernel_lists (self : HINCEPTION) :
  peak_kernels self = tl (increasing_trend_kernels self)
  /\ decreasing_trend_kernels self = increasing_trend_kernels self
  /\ length (increasing_trend_kernels self) = Z.to_nat (max_cf_length self)
  /\ (increasing_trend_kernels self = hybrid_kernel_sizes
      <-> max_cf_length self = 6%Z).
Proof.
  split; [|split; [reflexivity|split]].
  - unfold peak_kernels, increasing_trend_kernels.
    change 2%Z with (1 + 1)%Z at 2.
    rewrite <- (py_range_tl 1 (max_cf_length self + 1)).
    destruct (py_range 1 (max_cf_length self + 1)); reflexivity.
  - unfold increasing_trend_kernels. rewrite length_map, py_range_length.
    f_equal. lia.
  - split.
    + intro H. apply (f_equal (@length Z)) in H.
      unfold increasing_trend_kernels in H.
      rewrite length_map, py_range_length in H. cbn [hybrid_kernel_sizes length] in H.
      lia.
    + intro H. unfold increasing_trend_kernels. rewrite H. reflexivity.
Qed.

Lemma hybrid_bank_tracks (kt : Z) (xid : nat) :
  map (fun e : frozen_info => track (fst (fst e))) (hybrid_bank kt xid)
  = map (fun i => (kt + Z.of_nat i)%Z) (seq 0 17).
Proof.
  unfold hybrid_bank, bank_entries, hybrid_kernel_sizes.
  cbn [tl length seq combine map fst snd app track Z.of_nat Pos.of_succ_nat
       Pos.succ].
  repeat (f_equal; try lia).
Qed.

Lemma NoDup_map_offsets (kt : Z) (l : list nat) :
  NoDup l -> NoDup (map (fun i => (kt + Z.of_nat i)%Z) l).
Proof.
  induction 1 as [|i l Hi Hl IH]; cbn [map]; constructor; [|exact IH].
  intro Hin. apply in_map_iff in Hin. destruct Hin as (j & Hj & Hjl).
  assert (j = i) by lia. subst j. contradiction.
Qed.

Lemma hybrid_bank_names_distinct (kt : Z) (xid : nat) :
  NoDup (map (fun e : frozen_info => fst (fst e)) (hybrid_bank kt xid)).
Proof.
  apply (NoDup_map_inv track). rewrite map_map, hybrid_bank_tracks.
  apply NoDup_map_offsets. apply seq_NoDup.
Qed.

(** X8. On any input with a positive length and channel count the hybrid
    layer returns a tensor with 17 channels after adding 19 layers; its 17
    convolutions all read the input tensor, carry the consecutive counter
    values [keep_track, ..., keep_track + 16] in creation order, so that
    their names are pairwise distinct, and the counter ends 17 higher.  The
    peak convolutions have kernel size [K + K // 2], not the [K] their name
    carries. *)
Theorem hybrid_layer_numbers_its_filters (self : HINCEPTION) (x : tensor)
    (L C : Z) (st : builder) :
  tshape x = [L; C] -> (0 < L)%Z -> (0 < C)%Z ->
  exists h st' new,
    hybrid_layer self x C hybrid_kernel_sizes st = Ok (h, st') /\
    tshape h = [L; 17%Z] /\
    length (graph st') = (length (graph st) + 19)%nat /\
    keep_track st' = (keep_track st + 17)%Z /\
    frozen_convs (graph st') = frozen_convs (graph st) ++ new /\
    map (fun e : frozen_info => track (fst (fst e))) new
    = map (fun i => (keep_track st + Z.of_nat i)%Z) (seq 0 17) /\
    NoDup (map (fun e : frozen_info => fst (fst e)) new) /\
    Forall (fun e : frozen_info => snd e = [tid x]) new /\
    map (fun e : frozen_info => (size (fst (fst e)), snd (fst e))) new
    = map (fun K => (K, K)) hybrid_kernel_sizes
      ++ map (fun K => (K, K)) hybrid_kernel_sizes
      ++ map (fun K => (K, K + K / 2)%Z) (tl hybrid_kernel_sizes).
Proof.
  intros Hx HL HC.
  pose proof (@hybrid_layer_run self x L C Hx HL HC st) as H.
  apply wp_run in H.
  destruct H as (h & st' & Hrun & Hs & _ & Hlen & Hkt & _ & Hfz & _).
  exists h, st', (hybrid_bank (keep_track st) (tid x)).
  split; [exact Hrun|]. split; [exact Hs|]. split; [exact Hlen|].
  split; [exact Hkt|]. split; [exact Hfz|].
  split; [apply hybrid_bank_tracks|].
  split; [apply hybrid_bank_names_distinct|].
  split; [|reflexivity].
  unfold hybrid_bank, bank_entries. rewrite !Forall_app.
  repeat split; apply Forall_forall; intros e He;
    apply in_map_iff in He; destruct He as (ik & <- & _); reflexivity.
Qed.

Lemma hybrid_layer_numbers_its_filters_witness :
  exists h st',
    hybrid_layer example_default {| tid := 0; tshape := [100; 3]%Z |} 3
                 hybrid_kernel_sizes empty_builder = Ok (h, st') /\
    tshape h = [100; 17]%Z /\ keep_track st' = 17%Z.
Proof.
  destruct (@hybrid_layer_numbers_its_filters example_default
              {| tid := 0; tshape := [100; 3]%Z |} 100 3 empty_builder)
    as (h & st' & new & Hrun & Hs & _ & Hkt & _); try reflexivity.
  exists h, st'. split; [exact Hrun|]. split; [exact Hs | exact Hkt].
Defined.

Section Branches.

Variables (self : HINCEPTION) (x : tensor) (L C : Z).
Hypothesis Hx : tshape x = [L; C].
Hypothesis HL : (0 < L)%Z.
Hypothesis HC : (0 < C)%Z.
Hypothesis Hnf : (0 < n_filters self)%Z.

Ltac branch_next :=
  lazymatch goal with
  | |- wp (call (learned _ _ _ _) _) _ _ =>
      eapply wp_call;
      [ eapply infer_learned; first [exact Hx | reflexivity | lia]
      | wp_norm ]
  | |- wp (call (MaxPool1D _ _) _) _ _ =>
      eapply wp_call; [apply (@infer_pool x L C Hx HL HC) | wp_norm]
  | |- wp (call (Concatenate _) _) _ _ =>
      apply wp_call with
        (s := [L; (3 * n_filters self + n_filters self)%Z]);
      [ cbn [map tshape]; unfold infer; cbn [concat_channels];
        rewrite !Z.eqb_refl; same_channels
      | wp_norm ]
  | |- wp (call _ _) _ _ => eapply wp_call; [reflexivity | wp_norm]
  | |- _ => wp_next
  end.

Lemma inception_plain_run (st : builder) :
  wp (_inception_module self x 1 linear false) st (fun t st' =>
    let b := use_bottleneck self && (1 <? C)%Z in
    let o := (length (graph st) + (if b then 1 else 0))%nat in
    let src := if b then length (graph st) else tid x in
    let conv k ins :=
      {| op := learned (n_filters self) k 1 linear; inbound := ins;
         out := [L; n_filters self] |} in
    let wide := [L; (3 * n_filters self + n_filters self)%Z] in
    t = {| tid := o + 7; tshape := wide |} /\
    graph st'
    = [ {| op := Activation relu; inbound := [(o + 6)%nat]; out := wide |};
        {| op := BatchNormalization; inbound := [(o + 5)%nat]; out := wide |};
        {| op := Concatenate 2;
           inbound := [o; (o + 1)%nat; (o + 2)%nat; (o + 4)%nat]; out := wide |};
        conv 1%Z [(o + 3)%nat];
        {| op := MaxPool1D 3 1; inbound := [tid x]; out := [L; C] |};
        conv 10%Z [src]; conv 20%Z [src]; conv 40%Z [src] ]
      ++ (if b then [conv 1%Z [tid x]] else [])
      ++ graph st /\
    keep_track st' = keep_track st /\ hybrid st' = hybrid st).
Proof.
  unfold _inception_module, bottleneck_size, kernel_sizes.
  rewrite (@channels_x x L C Hx). cbn [for_append].
  destruct (use_bottleneck self && (1 <? C)%Z); cbv zeta;
    repeat branch_next;
    (split; [f_equal; lia|]); (split; [|split; reflexivity]);
    cbn [app]; repeat (f_equal; try lia).
Qed.

End Branches.

(** X9. Without the hybrid layer the Inception module adds, in this order:
    the bottleneck (only when enabled and the input has more than one
    channel), the three learned convolutions of sizes 40, 20, 10 on the
    bottleneck output (on the input itself when there is no bottleneck), the
    max-pooling on the module's own input, its projection, the concatenation
    of the four branches, batch normalization and the rectifier; the counter
    and the hybrid attribute are untouched. *)
Theorem inception_branches (self : HINCEPTION) (x : tensor) (L C : Z)
    (st : builder) :
  tshape x = [L; C] -> (0 < L)%Z -> (0 < C)%Z -> (0 < n_filters self)%Z ->
  let b := use_bottleneck self && (1 <? C)%Z in
  let o := (length (graph st) + (if b then 1 else 0))%nat in
  let src := if b then length (graph st) else tid x in
  let conv k ins :=
    {| op := learned (n_filters self) k 1 linear; inbound := ins;
       out := [L; n_filters self] |} in
  let wide := [L; (3 * n_filters self + n_filters self)%Z] in
  exists st',
    _inception_module self x 1 linear false st
    = Ok ({| tid := o + 7; tshape := wide |}, st') /\
    graph st'
    = [ {| op := Activation relu; inbound := [(o + 6)%nat]; out := wide |};
        {| op := BatchNormalization; inbound := [(o + 5)%nat]; out := wide |};
        {| op := Concatenate 2;
           inbound := [o; (o + 1)%nat; (o + 2)%nat; (o + 4)%nat]; out := wide |};
        conv 1%Z [(o + 3)%nat];
        {| op := MaxPool1D 3 1; inbound := [tid x]; out := [L; C] |};
        conv 10%Z [src]; conv 20%Z [src]; conv 40%Z [src] ]
      ++ (if b then [conv 1%Z [tid x]] else [])
      ++ graph st /\
    keep_track st' = keep_track st /\ hybrid st' = hybrid st.
Proof.
  intros Hx HL HC Hnf.
  pose proof (@inception_plain_run self x L C Hx HL HC Hnf st) as H.
  apply wp_run in H. destruct H as (t & st' & Hrun & Ht & Hrest).
  cbv zeta. exists st'. rewrite Hrun, Ht. split; [reflexivity | exact Hrest].
Qed.

Lemma inception_branches_witness :
  exists st',
    _inception_module example_default {| tid := 0; tshape := [100; 128]%Z |}
                      1 linear false empty_builder
    = Ok ({| tid := 8; tshape := [100; 128]%Z |}, st') /\
    length (graph st') = 9%nat.
Proof.
  destruct (@inception_branches example_default
              {| tid := 0; tshape := [100; 128]%Z |} 100 128 empty_builder)
    as (st' & Hrun & Hg & _); try reflexivity.
  exists st'. split; [exact Hrun|]. rewrite Hg. reflexivity.
Defined.

(** X10. The shortcut module accepts an anchor with any channel count: it
    projects the anchor to the channel count of the current activation with
    a 1x1 convolution, normalizes, adds the current activation and rectifies
    (four layers), and returns a tensor of the shape of the current
    activation. *)
Theorem shortcut_projects_anchor (self : HINCEPTION) (a o : tensor)
    (L Ca Co : Z) (st : builder) :
  tshape a = [L; Ca] -> tshape o = [L; Co] ->
  (0 < L)%Z -> (0 < Ca)%Z -> (0 < Co)%Z ->
  let g := length (graph st) in
  exists st',
    _shortcut_layer self a o st
    = Ok ({| tid := g + 3; tshape := [L; Co] |}, st') /\
    graph st'
    = [ {| op := Activation relu; inbound := [(g + 2)%nat]; out := [L; Co] |};
        {| op := Add; inbound := [(g + 1)%nat; tid o]; out := [L; Co] |};
        {| op := BatchNormalization; inbound := [g]; out := [L; Co] |};
        {| op := learned Co 1 1 linear; inbound := [tid a]; out := [L; Co] |} ]
      ++ graph st /\
    keep_track st' = keep_track st /\ hybrid st' = hybrid st.
Proof.
  intros Ha Ho HL HCa HCo. cbv zeta.
  assert (Hch : channels o = Co) by (unfold channels; rewrite Ho; reflexivity).
  assert (H : wp (_shortcut_layer self a o) st (fun t st' =>
    t = {| tid := length (graph st) + 3; tshape := [L; Co] |} /\
    graph st'
    = [ {| op := Activation relu; inbound := [(length (graph st) + 2)%nat];
           out := [L; Co] |};
        {| op := Add; inbound := [(length (graph st) + 1)%nat; tid o];
           out := [L; Co] |};
        {| op := BatchNormalization; inbound := [length (graph st)];
           out := [L; Co] |};
        {| op := learned Co 1 1 linear; inbound := [tid a]; out := [L; Co] |} ]
      ++ graph st /\
    keep_track st' = keep_track st /\ hybrid st' = hybrid st)).
  { unfold _shortcut_layer. rewrite Hch.
    apply wp_bind. eapply wp_call.
    { eapply infer_learned; first [exact Ha | lia]. }
    wp_norm.
    apply wp_bind. eapply wp_call; [reflexivity|]. wp_norm.
    apply wp_bind. apply wp_call with (s := [L; Co]).
    { cbn [map tshape]. rewrite Ho. unfold infer. cbn [shape_eqb].
      rewrite !Z.eqb_refl. reflexivity. }
    wp_norm.
    eapply wp_call; [reflexivity|]. wp_norm.
    split; [f_equal; lia|]. split; [|split; reflexivity].
    cbn [app]. repeat (f_equal; try lia). }
  apply wp_run in H. destruct H as (t & st' & Hrun & Ht & Hrest).
  exists st'. rewrite Hrun, Ht. split; [reflexivity | exact Hrest].
Qed.

Lemma shortcut_projects_anchor_witness :
  exists st',
    _shortcut_layer example_default {| tid := 0; tshape := [100; 1]%Z |}
                    {| tid := 5; tshape := [100; 145]%Z |} empty_builder
    = Ok ({| tid := 3; tshape := [100; 145]%Z |}, st').
Proof.
  destruct (@shortcut_projects_anchor example_default
              {| tid := 0; tshape := [100; 1]%Z |}
              {| tid := 5; tshape := [100; 145]%Z |} 100 1 145 empty_builder)
    as (st' & Hrun & _); try reflexivity.
  exists st'. exact Hrun.
Defined.

Lemma wp_conj {A : Type} (m : M A) (st : builder) (Q1 Q2 : A -> builder -> Prop) :
  wp m st Q1 -> wp m st Q2 -> wp m st (fun a st' => Q1 a st' /\ Q2 a st').
Proof.
  unfold wp. destruct (m st) as [[a st']|e]; intros H1 H2; [split|]; assumption.
Qed.

Section ModelHead.

Variables (self : HINCEPTION) (L : Z).
Hypothesis HL : (0 < L)%Z.
Hypothesis Hnf : (0 < n_filters self)%Z.

(** The channels of the current activation after the modules
    [first, ..., first + count - 1]. *)
Lemma loop_channels (count : nat) :
  forall (first : nat) (st : builder) (x r : tensor) (C Cr : Z),
    tshape x = [L; C] -> (0 < C)%Z ->
    tshape r = [L; Cr] -> (0 < Cr)%Z ->
    wp (for_fold (map (fun k => (0 + Z.of_nat k)%Z) (seq first count))
                 (build_step self) (x, r)) st
       (fun xr _ =>
          tshape (fst xr)
          = if (count =? 0)%nat then [L; C]
            else [L; (3 * n_filters self + n_filters self
                      + (if (first + count =? 1)%nat then 17 else 0))%Z]).
Proof.
  induction count as [|count IH]; intros first st x r C Cr Hx HC Hr HCr.
  - cbn [seq map for_fold]. apply wp_ret. exact Hx.
  - cbn [seq map for_fold]. apply wp_bind.
    eapply wp_mono; [apply (@step_run self L HL Hnf x r C Cr _ st Hx HC Hr HCr)|].
    intros [x1 r1] st1 Hst.
    pose proof (st_shape Hst) as Hx1. cbn [fst] in Hx1.
    destruct (st_anchor Hst) as (Cr1 & Hr1 & HCr1). cbn [snd] in Hr1.
    rewrite index_zero in Hx1.
    assert (HC1 : (0 < 3 * n_filters self + n_filters self
                       + (if (first =? 0)%nat then 17 else 0))%Z)
      by (destruct (first =? 0)%nat; lia).
    eapply wp_mono; [apply (IH (S first) st1 x1 r1 _ Cr1 Hx1 HC1 Hr1 HCr1)|].
    intros xr st' Hxr. cbv beta in Hxr. rewrite Hxr. cbn [Nat.eqb].
    destruct count as [|count]; cbn [Nat.eqb].
    + replace (first + 1 =? 1)%nat with (first =? 0)%nat; [reflexivity|].
      destruct (Nat.eqb_spec first 0), (Nat.eqb_spec (first + 1) 1);
        reflexivity || lia.
    + replace (S first + S count =? 1)%nat with false
        by (symmetry; apply Nat.eqb_neq; lia).
      replace (first + S (S count) =? 1)%nat with false
        by (symmetry; apply Nat.eqb_neq; lia).
      reflexivity.
Qed.

Lemma build_model_head :
  (0 < length_TS self)%Z -> L = length_TS self -> (0 < n_classes self)%Z ->
  exists m st gap_node out_node rest,
    construct self = Ok (m, st) /\
    graph st = out_node :: gap_node :: rest /\
    out_node = {| op := Dense (n_classes self) softmax;
                  inbound := [length rest]; out := [n_classes self] |} /\
    op gap_node = GlobalAveragePooling1D /\
    out gap_node
    = [ if (Z.to_nat (depth self) =? 0)%nat then 1%Z
        else (3 * n_filters self + n_filters self
              + (if (Z.to_nat (depth self) =? 1)%nat then 17 else 0))%Z ] /\
    outputs m = {| tid := S (length rest); tshape := [n_classes self] |}.
Proof.
  intros HTS HLeq Hcls.
  unfold construct, build_model, py_range.
  rewrite Z.sub_0_r, <- HLeq.
  set (start := push (Input [L; 1%Z]) [] [L; 1%Z]
                     (with_keep_track 0 empty_builder)).
  set (input_layer := {| tid := 0; tshape := [L; 1%Z] |}).
  assert (Hloop : wp (for_fold (map (fun k => (0 + Z.of_nat k)%Z)
                                    (seq 0 (Z.to_nat (depth self))))
                               (build_step self) (input_layer, input_layer))
                     start
                     (fun xr st' =>
                        loop_effect self L input_layer 0
                                    (Z.to_nat (depth self)) start xr st'
                        /\ tshape (fst xr)
                           = if (Z.to_nat (depth self) =? 0)%nat then [L; 1%Z]
                             else [L; (3 * n_filters self + n_filters self
                                       + (if (0 + Z.to_nat (depth self) =? 1)%nat
                                          then 17 else 0))%Z])).
  { apply wp_conj.
    - apply (@loop_run self L HL Hnf) with (C := 1%Z) (Cr := 1%Z);
        try reflexivity; lia.
    - apply loop_channels with (Cr := 1%Z); try reflexivity; lia. }
  apply wp_run in Hloop. destruct Hloop as (xr & st1 & Hrun & Hloop & Hshape).
  assert (Hin : infer (Input [L; 1%Z]) (map tshape []) = Some [L; 1%Z]).
  { cbn [map infer forallb]. destruct (Z.ltb_spec 0 L); [|lia]. reflexivity. }
  destruct (le_current Hloop) as (Cx & Hxs & HCx).
  unfold bind at 1. unfold set_keep_track at 1.
  unfold bind at 1. unfold call at 1. rewrite Hin.
  fold start. fold input_layer.
  unfold bind at 1. cbn [length graph with_keep_track empty_builder].
  fold input_layer. rewrite Hrun.
  unfold bind at 1. unfold call at 1.
  rewrite (@infer_gap (fst xr) L Cx Hxs HL HCx).
  unfold bind at 1. unfold call at 1. cbn [map tshape infer].
  destruct (Z.ltb_spec 0 (n_classes self)); [|lia].
  destruct (Z.ltb_spec 0 Cx); [|lia]. cbn [andb ret].
  eexists. eexists. eexists. eexists. eexists.
  split; [reflexivity|]. cbn [graph push map tid length outputs].
  split; [reflexivity|]. split; [reflexivity|]. split; [reflexivity|].
  split; [|reflexivity]. cbn [out].
  rewrite Hxs in Hshape. cbn [Nat.add] in Hshape.
  destruct (Z.to_nat (depth self) =? 0)%nat; injection Hshape as ->; reflexivity.
Qed.

End ModelHead.

(** X11. Every configuration with a positive series length, filter count
    and class count builds, whatever its depth and flags; the model ends in
    global average pooling followed by the dense softmax layer with
    [n_classes] outputs, and the pooled feature vector has 1 entry when
    [depth < 1], [4 n_filters + 17] entries when [depth = 1] (the only depth
    at which the hybrid channels reach the head directly) and [4 n_filters]
    entries for every deeper model. *)
Theorem model_head_features (self : HINCEPTION) :
  (0 < length_TS self)%Z -> (0 < n_filters self)%Z -> (0 < n_classes self)%Z ->
  exists m st gap_node out_node rest,
    construct self = Ok (m, st) /\
    graph st = out_node :: gap_node :: rest /\
    outputs m = {| tid := S (length rest); tshape := [n_classes self] |} /\
    out_node = {| op := Dense (n_classes self) softmax;
                  inbound := [length rest]; out := [n_classes self] |} /\
    op gap_node = GlobalAveragePooling1D /\
    out gap_node
    = [ if (depth self <? 1)%Z then 1%Z
        else if (depth self =? 1)%Z
             then (3 * n_filters self + n_filters self + 17)%Z
             else (3 * n_filters self + n_filters self)%Z ].
Proof.
  intros HTS Hnf Hcls.
  destruct (@build_model_head self (length_TS self) HTS Hnf HTS eq_refl Hcls)
    as (m & st & gap & outn & rest & Hrun & Hg & Hout & Hgap & Hfeat & Hm).
  exists m, st, gap, outn, rest.
  split; [exact Hrun|]. split; [exact Hg|]. split; [exact Hm|].
  split; [exact Hout|]. split; [exact Hgap|].
  rewrite Hfeat.
  destruct (Z.ltb_spec (depth self) 1).
  - replace (Z.to_nat (depth self)) with 0%nat by lia. reflexivity.
  - destruct (Z.eqb_spec (depth self) 1) as [E|E].
    + rewrite E. reflexivity.
    + destruct (Nat.eqb_spec (Z.to_nat (depth self)) 0); [lia|].
      destruct (Nat.eqb_spec (Z.to_nat (depth self)) 1); [lia|].
      rewrite Z.add_0_r. reflexivity.
Qed.

Lemma model_head_features_witness :
  exists m st gap_node out_node rest,
    construct example_default = Ok (m, st) /\
    graph st = out_node :: gap_node :: rest /\
    out gap_node = [128%Z].
Proof.
  destruct (@model_head_features example_default)
    as (m & st & gap & outn & rest & Hrun & Hg & _ & _ & _ & Hfeat);
    try reflexivity.
  exists m, st, gap, outn, rest. split; [exact Hrun|]. split; [exact Hg|].
  exact Hfeat.
Defined.

Lemma shortcut_positions_count (g : list node) :
  length (shortcut_positions g) = length (filter is_add g).
Proof.
  induction g as [|n g IH]; [reflexivity|].
  cbn [shortcut_positions filter]. rewrite length_app, IH.
  destruct (is_add n); cbn [length]; lia.
Qed.

Lemma every_third_count (n : nat) :
  length (filter (fun d => (d mod 3 =? 2)%Z)
                 (map (fun k => (0 + Z.of_nat k)%Z) (seq 0 n)))
  = (n / 3)%nat.
Proof.
  induction n as [|n IH]; [reflexivity|].
  rewrite seq_S, map_app, filter_app, length_app, IH.
  cbn [Nat.add map filter].
  pose proof (Nat.div_mod_eq n 3) as E1.
  pose proof (Nat.mod_upper_bound n 3 ltac:(discriminate)) as B1.
  pose proof (Nat.div_mod_eq (S n) 3) as E2.
  pose proof (Nat.mod_upper_bound (S n) 3 ltac:(discriminate)) as B2.
  assert (Hm : ((0 + Z.of_nat n) mod 3 = Z.of_nat (n mod 3))%Z).
  { rewrite Z.add_0_l. symmetry.
    apply (Z.mod_unique_pos _ _ (Z.of_nat (n / 3))); lia. }
  rewrite Hm.
  destruct (Z.eqb_spec (Z.of_nat (n mod 3)) 2); cbn [length]; lia.
Qed.

(** X12. A finished model has [depth // 3] shortcut modules when residual
    connections are enabled and none otherwise: that many [Add] layers are
    in its graph. *)
Theorem shortcut_count (self : HINCEPTION) :
  (0 < length_TS self)%Z -> (0 < n_filters self)%Z -> (0 < n_classes self)%Z ->
  exists m st,
    construct self = Ok (m, st) /\
    length (filter is_add (graph st))
    = if use_residual self then Z.to_nat (depth self / 3) else 0%nat.
Proof.
  intros HTS Hnf Hcls.
  destruct (build_model_summary self HTS Hnf Hcls)
    as (m & st & Hrun & _ & _ & _ & Hsp & _).
  exists m, st. split; [exact Hrun|].
  rewrite <- shortcut_positions_count, Hsp.
  destruct (use_residual self); [|reflexivity].
  unfold py_range. rewrite Z.sub_0_r, every_third_count.
  destruct (Z.le_gt_cases 0 (depth self)) as [Hd|Hd].
  - rewrite <- (Z2Nat.id (depth self)) at 2 by exact Hd.
    change 3%Z with (Z.of_nat 3). rewrite <- Nat2Z.inj_div, Nat2Z.id. reflexivity.
  - replace (Z.to_nat (depth self)) with 0%nat by lia.
    assert (depth self / 3 < 0)%Z by (apply Z.div_lt_upper_bound; lia).
    cbn. lia.
Qed.

Lemma shortcut_count_witness :
  exists m st,
    construct example_default = Ok (m, st) /\
    length (filter is_add (graph st)) = 2%nat.
Proof.
  destruct (@shortcut_count example_default) as (m & st & Hrun & Hn);
    try reflexivity.
  exists m, st. split; [exact Hrun | exact Hn].
Defined.

(* ===================================================================== *)
(** * Further properties of [fit] and [predict] *)
(* ===================================================================== *)

(** X13. [fit] reaches the training call exactly when there is at least one
    training label and, if [plot_test] is set, validation labels are given
    and not empty; otherwise it raises before training. *)
Theorem fit_outcome {X : Type} (self : HINCEPTION) (xtrain : list X)
    (ytrain : list Z) (xval : option (list X)) (yval : option (list Z))
    (plot_test : bool) :
  (exists call, fit self xtrain ytrain xval yval plot_test = Ok call)
  <-> (ytrain <> [] /\
       (plot_test = true -> exists yv, yval = Some yv /\ yv <> [])).
Proof.
  unfold fit. split.
  - intros (call & H). destruct ytrain as [|y ys]; [discriminate H|].
    split; [discriminate|]. intros ->.
    rewrite fit_transform_labels in H by discriminate. cbn [rbind snd] in H.
    destruct yval as [[|v vs]|]; try discriminate H.
    exists (v :: vs). split; [reflexivity | discriminate].
  - intros (Ht & Hv).
    rewrite (fit_transform_labels OHE.new Ht). cbn [rbind snd].
    destruct plot_test.
    + destruct (Hv eq_refl) as (yv & -> & Hyv).
      rewrite (fit_transform_labels OHE.new Hyv). cbn [rbind]. eexists. reflexivity.
    + eexists. reflexivity.
Qed.

Section OneHotRows.

Lemma sorted_NoDup (l : list Z) : StronglySorted Z.lt l -> NoDup l.
Proof.
  induction 1 as [|x l Hs IH Hx]; constructor; [|exact IH].
  intro Hin. rewrite Forall_forall in Hx. specialize (Hx x Hin). lia.
Qed.

Lemma indicator_absent (cats : list Z) (y : Z) :
  ~ In y cats -> OHE.indicator cats y = repeat 0 (length cats).
Proof.
  unfold OHE.indicator. induction cats as [|c cats IH]; intro H; [reflexivity|].
  cbn [map length repeat].
  destruct (Z.eqb_spec c y) as [E|E]; [exfalso; apply H; left; exact E|].
  f_equal. apply IH. intro Hin. apply H. right. exact Hin.
Qed.

Lemma indicator_at (cats : list Z) (y : Z) :
  NoDup cats ->
  forall k, nth_error cats k = Some y ->
  OHE.indicator cats y = repeat 0 k ++ [1] ++ repeat 0 (length cats - S k).
Proof.
  induction 1 as [|c cats Hc Hnd IH]; intros k Hk; [destruct k; discriminate|].
  destruct k as [|k]; cbn [nth_error] in Hk.
  - injection Hk as ->. unfold OHE.indicator. cbn [map].
    rewrite Z.eqb_refl. cbn [repeat app length].
    replace (S (length cats) - 1)%nat with (length cats) by lia.
    f_equal. apply indicator_absent. exact Hc.
  - unfold OHE.indicator in *. cbn [map repeat app length].
    replace (S (length cats) - S (S k))%nat with (length cats - S k)%nat by lia.
    destruct (Z.eqb_spec c y) as [E|E].
    + exfalso. apply Hc. rewrite E. apply (nth_error_In _ _ Hk).
    + f_equal. apply IH. exact Hk.
Qed.

End OneHotRows.

Lemma fit_outcome_witness :
  (exists call, fit example_default [tt; tt] [0; 1]%Z None None false = Ok call)
  /\ ~ (exists call,
          fit example_default [tt; tt] [0; 1]%Z None None true = Ok call).
Proof.
  split.
  - apply (proj2 (@fit_outcome unit example_default [tt; tt] [0; 1]%Z
                               None None false)).
    split; discriminate.
  - intro H.
    apply (proj1 (@fit_outcome unit example_default [tt; tt] [0; 1]%Z
                               None None true)) in H.
    destruct H as (_ & H). destruct (H eq_refl) as (yv & Hyv & _).
    discriminate Hyv.
Defined.

(** X14. When [fit] reaches training, the label matrix it passes has one
    row per training label.  The categories are the distinct training labels
    (as numpy holds them) in strictly increasing order; the row of a label
    [y] has one entry per category, a single 1 at the rank of [y], which is
    the number of categories smaller than [y], and 0 elsewhere.  Its width
    is fixed by the labels, not by [n_classes].  Labels within the signed
    64-bit range are held as given. *)
Theorem fit_one_hot_rows {X : Type} (self : HINCEPTION) (xtrain : list X)
    (ytrain : list Z) (xval : option (list X)) (yval : option (list Z))
    (plot_test : bool) (call : fit_call X) :
  fit self xtrain ytrain xval yval plot_test = Ok call ->
  length (fit_y call) = length ytrain
  /\ length (np_asanyarray ytrain) = length ytrain
  /\ StronglySorted Z.lt (OHE.unique (np_asanyarray ytrain))
  /\ (forall w, In w (OHE.unique (np_asanyarray ytrain))
                <-> In w (np_asanyarray ytrain))
  /\ (forall i y, nth_error (np_asanyarray ytrain) i = Some y ->
       exists k,
         k = length (filter (fun c => (c <? y)%Z)
                            (OHE.unique (np_asanyarray ytrain))) /\
         nth_error (OHE.unique (np_asanyarray ytrain)) k = Some y /\
         nth_error (fit_y call) i
         = Some (repeat 0 k ++ [1]
                 ++ repeat 0 (length (OHE.unique (np_asanyarray ytrain)) - S k)))
  /\ (Forall (fun v => fits_int64 v = true) ytrain -> np_asanyarray ytrain = ytrain).
Proof.
  intro H.
  assert (Ht : ytrain <> []) by (intro E; subst; discriminate H).
  assert (Hy : fit_y call
               = map (OHE.indicator (OHE.unique (np_asanyarray ytrain)))
                     (np_asanyarray ytrain)).
  { unfold fit in H. rewrite (fit_transform_labels OHE.new Ht) in H.
    cbn [rbind snd] in H.
    destruct plot_test.
    - destruct yval as [yv|]; [|discriminate H].
      destruct (OHE.fit_transform OHE.new (expand_dims_1 yv)); [|discriminate H].
      cbn [rbind] in H. injection H as <-. reflexivity.
    - injection H as <-. reflexivity. }
  rewrite Hy.
  split; [rewrite length_map; apply np_asanyarray_length|].
  split; [apply np_asanyarray_length|].
  split; [apply unique_sorted|].
  split; [intro w; apply unique_In|].
  split; [|apply np_asanyarray_int64].
  intros i y Hi.
  assert (Hin : In y (OHE.unique (np_asanyarray ytrain)))
    by (apply unique_In; apply (nth_error_In _ _ Hi)).
  pose proof (@sorted_rank _ y (unique_sorted (np_asanyarray ytrain)) Hin) as Hk.
  eexists. split; [reflexivity|]. split; [exact Hk|].
  rewrite nth_error_map, Hi. cbn [option_map]. f_equal.
  apply indicator_at; [|exact Hk].
  apply sorted_NoDup. apply unique_sorted.
Qed.

Lemma fit_one_hot_rows_witness :
  exists call,
    fit example_default [tt; tt; tt] [2 ^ 63; 2 ^ 63 + 1; -1]%Z None None false
    = Ok call /\
    nth_error (fit_y call) 1 = Some [0; 1] /\
    OHE.unique (np_asanyarray [2 ^ 63; 2 ^ 63 + 1; -1]%Z) = [-1; 2 ^ 63]%Z /\
    length (fit_y call) = 3%nat.
Proof.
  assert (Hrun : fit example_default [tt; tt; tt] [2 ^ 63; 2 ^ 63 + 1; -1]%Z
                     None None false
                 = Ok {| fit_x := [tt; tt; tt];
                         fit_y := [[0; 1]; [0; 1]; [1; 0]];
                         fit_batch_size := 0; fit_epochs := 1500;
                         fit_validation_data := None |})
    by (vm_compute; reflexivity).
  destruct (fit_one_hot_rows _ _ _ _ _ _ Hrun) as (Hlen & _ & _ & _ & Hrow & _).
  eexists. split; [exact Hrun|].
  split; [|split; [vm_compute; reflexivity | exact Hlen]].
  destruct (Hrow 1%nat (2 ^ 63)%Z) as (k & Hk & _ & Hr); [vm_compute; reflexivity|].
  rewrite Hr, Hk. vm_compute. reflexivity.
Defined.

(** X15. When [fit] reaches training, the batch size it passes never
    exceeds the configured one nor a tenth of the training samples, and it
    is the configured one exactly when there are at least ten times as many
    training samples as the configured batch size. *)
Theorem fit_batch_size_bounds {X : Type} (self : HINCEPTION) (xtrain : list X)
    (ytrain : list Z) (xval : option (list X)) (yval : option (list Z))
    (plot_test : bool) (call : fit_call X) :
  fit self xtrain ytrain xval yval plot_test = Ok call ->
  (fit_batch_size call <= batch_size self)%Z
  /\ (10 * fit_batch_size call <= Z.of_nat (length xtrain))%Z
  /\ (fit_batch_size call = batch_size self
      <-> (10 * batch_size self <= Z.of_nat (length xtrain))%Z).
Proof.
  intro H.
  assert (Hb : fit_batch_size call
               = Z.min (batch_size self) (Z.of_nat (length xtrain) / 10)).
  { unfold fit in H.
    destruct (OHE.fit_transform OHE.new (expand_dims_1 ytrain)); [|discriminate H].
    cbn [rbind] in H. destruct plot_test.
    - destruct yval as [yv|]; [|discriminate H].
      destruct (OHE.fit_transform OHE.new (expand_dims_1 yv)); [|discriminate H].
      cbn [rbind] in H. injection H as <-. reflexivity.
    - injection H as <-. reflexivity. }
  rewrite Hb.
  pose proof (Z.div_mod (Z.of_nat (length xtrain)) 10 ltac:(discriminate)) as E.
  pose proof (Z.mod_pos_bound (Z.of_nat (length xtrain)) 10 ltac:(reflexivity)) as B.
  repeat split; lia.
Qed.

Lemma fit_batch_size_bounds_witness :
  exists call,
    fit example_default (repeat tt 700) [0; 1]%Z None None false = Ok call /\
    fit_batch_size call = 64%Z.
Proof.
  eexists. split; [reflexivity|].
  destruct (@fit_batch_size_bounds unit example_default (repeat tt 700)
              [0; 1]%Z None None false _ eq_refl) as (_ & _ & Hiff).
  apply (proj2 Hiff). vm_compute. discriminate.
Defined.

Section Argmax.

Lemma argmax_from_first_maximum (rest : list Q) :
  forall (pre : list Q) (bi : nat) (b : Q),
    (bi < length pre)%nat -> nth bi pre 0 = b ->
    (forall j, (j < length pre)%nat -> nth j pre 0 <= b) ->
    (forall j, (j < bi)%nat -> nth j pre 0 < b) ->
    let row := pre ++ rest in
    let r := argmax_from bi b (length pre) rest in
    (r < length row)%nat
    /\ (forall j, (j < length row)%nat -> nth j row 0 <= nth r row 0)
    /\ (forall j, (j < r)%nat -> nth j row 0 < nth r row 0).
Proof.
  induction rest as [|v rest IH]; intros pre bi b Hbi Hb Hle Hlt; cbv zeta.
  - cbn [argmax_from]. rewrite app_nil_r. rewrite Hb.
    split; [exact Hbi|]. split; assumption.
  - cbn [argmax_from].
    assert (Hrow : pre ++ v :: rest = (pre ++ [v]) ++ rest)
      by (rewrite <- app_assoc; reflexivity).
    assert (Hlen : S (length pre) = length (pre ++ [v]))
      by (rewrite length_app; cbn [length]; lia).
    rewrite Hrow, Hlen.
    destruct (Qle_bool v b) eqn:E.
    + apply Qle_bool_iff in E. apply IH.
      * rewrite <- Hlen. lia.
      * rewrite app_nth1 by exact Hbi. exact Hb.
      * intros j Hj. rewrite <- Hlen in Hj.
        destruct (Nat.eq_dec j (length pre)) as [->|Hne].
        -- rewrite nth_middle. exact E.
        -- rewrite app_nth1 by lia. apply Hle. lia.
      * intros j Hj. rewrite app_nth1 by lia. apply Hlt. exact Hj.
    + assert (Hbv : b < v).
      { apply Qnot_le_lt. intro H. apply Qle_bool_iff in H. congruence. }
      apply IH.
      * rewrite <- Hlen. lia.
      * apply nth_middle.
      * intros j Hj. rewrite <- Hlen in Hj.
        destruct (Nat.eq_dec j (length pre)) as [->|Hne].
        -- rewrite nth_middle. apply Qle_refl.
        -- rewrite app_nth1 by lia. apply Qlt_le_weak.
           apply Qle_lt_trans with b; [apply Hle; lia | exact Hbv].
      * intros j Hj. rewrite app_nth1 by lia.
        apply Qle_lt_trans with b; [apply Hle; lia | exact Hbv].
Qed.

Lemma argmax_in_range (row : list Q) :
  row <> [] -> exists r, np_argmax row = Ok r /\ (r < length row)%nat.
Proof.
  intro Hne. destruct row as [|v rest]; [contradiction|].
  eexists. split; [reflexivity|].
  apply (@argmax_from_first_maximum rest [v] 0%nat v).
  - cbn [length]. lia.
  - reflexivity.
  - intros j Hj. cbn [length] in Hj. assert (j = 0)%nat by lia. subst j.
    apply Qle_refl.
  - intros j Hj. lia.
Qed.

End Argmax.

(** X16. The class index taken from a row of scores is a position of the
    row holding its largest value, and the first such position: ties go to
    the lowest class index.  A row without entries has none (numpy raises). *)
Theorem argmax_is_first_maximum (row : list Q) :
  (row = [] -> np_argmax row = Raise ValueError)
  /\ (row <> [] ->
      exists r,
        np_argmax row = Ok r /\
        (r < length row)%nat /\
        (forall j, (j < length row)%nat -> nth j row 0 <= nth r row 0) /\
        (forall j, (j < r)%nat -> nth j row 0 < nth r row 0)).
Proof.
  split; [intros ->; reflexivity|].
  intro Hne. destruct row as [|v rest]; [contradiction|].
  eexists. split; [reflexivity|].
  apply (@argmax_from_first_maximum rest [v] 0%nat v).
  - cbn [length]. lia.
  - reflexivity.
  - intros j Hj. cbn [length] in Hj. assert (j = 0)%nat by lia. subst j.
    apply Qle_refl.
  - intros j Hj. lia.
Qed.

Lemma argmax_is_first_maximum_witness :
  np_argmax [] = Raise ValueError
  /\ exists r, np_argmax [1 # 4; 1 # 2; 1 # 2; 1 # 8] = Ok r /\ r = 1%nat.
Proof.
  split.
  - apply (proj1 (argmax_is_first_maximum [])). reflexivity.
  - destruct (proj2 (argmax_is_first_maximum [1 # 4; 1 # 2; 1 # 2; 1 # 8]))
      as (r & Hr & _); [discriminate|].
    exists r. split; [exact Hr|]. injection Hr as <-. reflexivity.
Defined.

Section Accuracy.

Lemma filter_length_le {A : Type} (f : A -> bool) (l : list A) :
  (length (filter f l) <= length l)%nat.
Proof.
  induction l as [|a l IH]; [apply Nat.le_refl|].
  cbn [filter]. destruct (f a); cbn [length]; lia.
Qed.

Lemma filter_length_all {A : Type} (f : A -> bool) (l : list A) :
  length (filter f l) = length l <-> forallb f l = true.
Proof.
  induction l as [|a l IH]; [split; reflexivity|].
  cbn [filter forallb]. pose proof (filter_length_le f l) as Hle.
  destruct (f a); cbn [length andb].
  - rewrite <- IH. split; intro H; lia.
  - split; [intro H; lia | discriminate].
Qed.

Lemma filter_length_none {A : Type} (f : A -> bool) (l : list A) :
  (forall a, In a l -> f a = false) -> length (filter f l) = 0%nat.
Proof.
  induction l as [|a l IH]; intro H; [reflexivity|].
  cbn [filter]. rewrite (H a (or_introl eq_refl)).
  apply IH. intros b Hb. apply H. right. exact Hb.
Qed.

Lemma rmapM_length {A B : Type} (f : A -> result B) (l : list A) (l' : list B) :
  rmapM f l = Ok l' -> length l' = length l.
Proof.
  revert l'. induction l as [|a l IH]; intros l' H; cbn [rmapM] in H.
  - injection H as <-. reflexivity.
  - destruct (f a) as [b|e]; [|discriminate H]. cbn [rbind] in H.
    destruct (rmapM f l) as [bs|e]; [|discriminate H]. cbn [rbind] in H.
    injection H as <-. cbn [length]. f_equal. apply IH. reflexivity.
Qed.

Lemma rmapM_ok {A B : Type} (f : A -> result B) (l : list A) :
  Forall (fun a => exists b, f a = Ok b) l <-> exists l', rmapM f l = Ok l'.
Proof.
  induction l as [|a l IH]; cbn [rmapM].
  - split; [intros _; eexists; reflexivity | constructor].
  - split.
    + intro H. inversion H as [|? ? (b & Hb) Hl]; subst.
      apply IH in Hl. destruct Hl as (l' & Hl').
      rewrite Hb, Hl'. eexists. reflexivity.
    + intros (l' & H). destruct (f a) as [b|e] eqn:Ha; [|discriminate H].
      cbn [rbind] in H. destruct (rmapM f l) as [bs|e] eqn:Hl; [|discriminate H].
      constructor; [exists b; exact Ha|].
      apply IH. exists bs. reflexivity.
Qed.

Lemma rmapM_in {A B : Type} (f : A -> result B) (l : list A) (l' : list B) :
  rmapM f l = Ok l' ->
  forall i b, nth_error l' i = Some b ->
  exists a, nth_error l i = Some a /\ f a = Ok b.
Proof.
  revert l'. induction l as [|a l IH]; intros l' H i b Hi; cbn [rmapM] in H.
  - injection H as <-. destruct i; discriminate Hi.
  - destruct (f a) as [b0|e] eqn:Ha; [|discriminate H]. cbn [rbind] in H.
    destruct (rmapM f l) as [bs|e] eqn:Hl; [|discriminate H]. cbn [rbind] in H.
    injection H as <-. destruct i as [|i]; cbn [nth_error] in Hi |- *.
    + injection Hi as <-. exists a. split; [reflexivity | exact Ha].
    + apply (IH bs eq_refl i b Hi).
Qed.

Lemma nth_error_zip {A B : Type} (l1 : list A) (l2 : list B) (i : nat) :
  nth_error (combine l1 l2) i
  = match nth_error l1 i, nth_error l2 i with
    | Some a, Some b => Some (a, b)
    | _, _ => None
    end.
Proof.
  revert l2 i. induction l1 as [|a l1 IH]; intros l2 i.
  - destruct i; reflexivity.
  - destruct l2 as [|b l2].
    + destruct i as [|i]; cbn [combine nth_error]; [reflexivity|].
      destruct (nth_error l1 i); reflexivity.
    + destruct i as [|i]; cbn [combine nth_error]; [reflexivity | apply IH].
Qed.

End Accuracy.

(** X17. For test labels within the signed 64-bit range, [predict] returns
    exactly when the checkpoint loads, there is at least one test series,
    the stored model yields scores for them, every row of scores has at
    least one entry, and there are as many test labels as rows.  Whenever it
    returns, it returns the scores of the stored model unchanged and an
    accuracy whose denominator is the number of test labels and whose
    numerator does not exceed it.  A checkpoint that cannot be loaded, a
    stored model that fails and an empty test set each make it raise. *)
Theorem predict_outcome {X : Type} (self : HINCEPTION)
    (load_model : string -> result (list X -> result (list (list Q))))
    (xtest : list X) (ytest : list Z) :
  (Forall (fun y => fits_int64 y = true) ytest ->
   ((exists out, predict self load_model xtest ytest = Ok out)
    <-> exists model ypred,
        load_model (output_directory self ++ "best_model.hdf5")%string = Ok model /\
        xtest <> [] /\
        model xtest = Ok ypred /\
        Forall (fun row => row <> []) ypred /\
        length ytest = length ypred))
  /\ (forall ypred acc,
         predict self load_model xtest ytest = Ok (ypred, acc) ->
         (exists model,
             load_model (output_directory self ++ "best_model.hdf5")%string
             = Ok model /\ model xtest = Ok ypred) /\
         total acc = length ytest /\ (hits acc <= total acc)%nat)
  /\ (forall e,
         load_model (output_directory self ++ "best_model.hdf5")%string = Raise e ->
         predict self load_model xtest ytest = Raise e)
  /\ (forall model e,
         load_model (output_directory self ++ "best_model.hdf5")%string = Ok model ->
         xtest <> [] -> model xtest = Raise e ->
         predict self load_model xtest ytest = Raise e)
  /\ (forall model,
         load_model (output_directory self ++ "best_model.hdf5")%string = Ok model ->
         xtest = [] ->
         predict self load_model xtest ytest = Raise ValueError).
Proof.
  unfold predict.
  assert (Hrows : forall rows : list (list Q),
            Forall (fun row => row <> []) rows
            <-> exists l', rmapM np_argmax rows = Ok l').
  { intro rows. rewrite <- rmapM_ok. split; intro H;
      (eapply Forall_impl; [|exact H]); intros row Hr.
    - destruct row; [contradiction|]. eexists. reflexivity.
    - destruct Hr as (b & Hb). intros ->. discriminate Hb. }
  split; [|split; [|split; [|split]]].
  - intros _. split.
    + intros (out & H).
      destruct (load_model _) as [model|e]; [|discriminate H]. cbn [rbind] in H.
      destruct xtest as [|x0 xs]; [discriminate H|]. cbn [model_predict] in H.
      destruct (model (x0 :: xs)) as [ypred|e] eqn:Hm; [|discriminate H].
      cbn [rbind] in H.
      exists model, ypred. split; [reflexivity|]. split; [discriminate|].
      split; [exact Hm|].
      destruct (rmapM np_argmax ypred) as [idx|e] eqn:Hidx; [|discriminate H].
      cbn [rbind] in H. split; [apply Hrows; exists idx; exact Hidx|].
      unfold accuracy_score in H.
      destruct (Nat.eqb_spec (length ytest) (length idx)) as [E|E];
        [|discriminate H].
      rewrite E. apply (rmapM_length _ _ Hidx).
    + intros (model & ypred & Hload & Hx & Hm & Hne & Hlen).
      rewrite Hload. cbn [rbind].
      destruct xtest as [|x0 xs]; [contradiction|]. cbn [model_predict].
      rewrite Hm. cbn [rbind].
      apply Hrows in Hne. destruct Hne as (idx & Hidx). rewrite Hidx.
      cbn [rbind]. unfold accuracy_score.
      rewrite (rmapM_length _ _ Hidx), <- Hlen, Nat.eqb_refl. cbn [rbind].
      eexists. reflexivity.
  - intros ypred acc H.
    destruct (load_model _) as [model|e]; [|discriminate H]. cbn [rbind] in H.
    destruct xtest as [|x0 xs]; [discriminate H|]. cbn [model_predict] in H.
    destruct (model (x0 :: xs)) as [scores|e] eqn:Hm; [|discriminate H].
    cbn [rbind] in H.
    destruct (rmapM np_argmax scores) as [idx|e] eqn:Hidx; [|discriminate H].
    cbn [rbind] in H. unfold accuracy_score in H.
    destruct (Nat.eqb_spec (length ytest) (length idx)) as [E|E];
      [|discriminate H].
    cbn [rbind] in H. injection H as <- <-. cbn [total hits].
    split; [exists model; split; [reflexivity | exact Hm]|]. split; [reflexivity|].
    eapply Nat.le_trans; [apply filter_length_le|].
    rewrite length_combine. lia.
  - intros e ->. reflexivity.
  - intros model e -> Hx Hm. cbn [rbind].
    destruct xtest as [|x0 xs]; [contradiction|]. cbn [model_predict].
    rewrite Hm. reflexivity.
  - intros model -> ->. reflexivity.
Qed.

(** X18. The accuracy compares each test label with the position of the
    largest score in its row.  It is 1 (all hits) exactly when every label
    equals that position, and it is 0 whenever every label is negative or at
    least the number of columns, however good the scores are. *)
Theorem predict_accuracy {X : Type} (self : HINCEPTION)
    (load_model : string -> result (list X -> result (list (list Q))))
    (xtest : list X) (ytest : list Z) (ypred : list (list Q)) (acc : fraction) :
  predict self load_model xtest ytest = Ok (ypred, acc) ->
  (hits acc = total acc
   <-> forall i y row, nth_error ytest i = Some y -> nth_error ypred i = Some row ->
         exists r, np_argmax row = Ok r /\ y = Z.of_nat r)
  /\ (forall width,
         Forall (fun row => length row = width) ypred ->
         Forall (fun y => (y < 0 \/ Z.of_nat width <= y)%Z) ytest ->
         hits acc = 0%nat).
Proof.
  unfold predict. intro H.
  destruct (load_model _) as [model|e]; [|discriminate H]. cbn [rbind] in H.
  destruct (model_predict model xtest) as [scores|e]; [|discriminate H].
  cbn [rbind] in H.
  destruct (rmapM np_argmax scores) as [idx|e] eqn:Hidx; [|discriminate H].
  cbn [rbind] in H. unfold accuracy_score in H.
  destruct (Nat.eqb_spec (length ytest) (length idx)) as [E|E]; [|discriminate H].
  cbn [rbind] in H. injection H as <- <-. cbn [total hits].
  pose proof (rmapM_length _ _ Hidx) as Hlen.
  split.
  - assert (Hc : length ytest = length (combine ytest idx))
      by (rewrite length_combine; lia).
    rewrite Hc, filter_length_all, forallb_forall.
    split.
    + intros Hall i y row Hy Hrow.
      assert (Hi : (i < length idx)%nat)
        by (rewrite <- E; apply nth_error_Some; congruence).
      destruct (nth_error idx i) as [r|] eqn:Hr;
        [|apply nth_error_None in Hr; lia].
      destruct (rmapM_in _ _ Hidx _ Hr) as (row' & Hrow' & Harg).
      assert (row' = row) by congruence. subst row'.
      exists r. split; [exact Harg|].
      assert (Hin : In (y, r) (combine ytest idx)).
      { apply (nth_error_In _ i). rewrite nth_error_zip, Hy, Hr. reflexivity. }
      specialize (Hall _ Hin). cbn [fst snd] in Hall. apply Z.eqb_eq. exact Hall.
    + intros Hall [y r] Hin. cbn [fst snd].
      apply In_nth_error in Hin. destruct Hin as (i & Hi).
      rewrite nth_error_zip in Hi.
      destruct (nth_error ytest i) as [y'|] eqn:Hy; [|discriminate Hi].
      destruct (nth_error idx i) as [r'|] eqn:Hr; [|discriminate Hi].
      injection Hi as -> ->.
      destruct (rmapM_in _ _ Hidx _ Hr) as (row & Hrow & Harg).
      destruct (Hall i y row Hy Hrow) as (r' & Harg' & ->).
      assert (r' = r) by congruence. subst r'. apply Z.eqb_refl.
  - intros width Hw Hy. apply filter_length_none.
    intros [y r] Hin. cbn [fst snd].
    apply In_nth_error in Hin. destruct Hin as (i & Hi).
    rewrite nth_error_zip in Hi.
    destruct (nth_error ytest i) as [y'|] eqn:Hyi; [|discriminate Hi].
    destruct (nth_error idx i) as [r'|] eqn:Hr; [|discriminate Hi].
    injection Hi as -> ->.
    destruct (rmapM_in _ _ Hidx _ Hr) as (row & Hrow & Harg).
    rewrite Forall_forall in Hw, Hy.
    pose proof (Hw row (nth_error_In _ _ Hrow)) as Hrw.
    pose proof (Hy y (nth_error_In _ _ Hyi)) as Hyr.
    assert (Hne : row <> []) by (intros ->; discriminate Harg).
    destruct (argmax_in_range Hne) as (r' & Hr' & Hlt).
    assert (r' = r) by congruence. subst r'.
    apply Z.eqb_neq. lia.
Qed.

Lemma predict_accuracy_witness :
  exists ypred acc,
    predict example_default example_loader [tt; tt] [5; 7]%Z = Ok (ypred, acc) /\
    hits acc = 0%nat /\ total acc = 2%nat.
Proof.
  eexists. eexists. split; [reflexivity|]. split; [|reflexivity].
  apply (proj2 (@predict_accuracy unit example_default example_loader
                  [tt; tt] [5; 7]%Z _ _ eq_refl) 2%nat).
  - repeat constructor.
  - constructor; [right; cbn; lia|]. constructor; [right; cbn; lia|].
    constructor.
Defined.

Lemma predict_outcome_witness :
  (exists out, predict example_default example_loader [tt; tt] [1; 0]%Z = Ok out)
  /\ predict example_depth_0 (fun _ => Raise ValueError) [tt] [1]%Z
     = Raise ValueError
  /\ predict example_default example_loader [] [] = Raise ValueError.
Proof.
  split; [|split].
  - apply (proj2 (proj1 (@predict_outcome unit example_default example_loader
                           [tt; tt] [1; 0]%Z)
                    ltac:(repeat constructor))).
    eexists. eexists. split; [reflexivity|]. split; [discriminate|].
    split; [reflexivity|]. split; [|reflexivity].
    repeat constructor; discriminate.
  - apply (proj1 (proj2 (proj2 (@predict_outcome unit example_depth_0
                                  (fun _ => Raise ValueError) [tt] [1]%Z)))).
    reflexivity.
  - eapply (proj2 (proj2 (proj2 (proj2 (@predict_outcome unit example_default
                                          example_loader [] []))))).
    + reflexivity.
    + reflexivity.
Defined.
